(** * StimaSense: the planned-outage fetcher and the trainer entry points

    A shallow embedding of
      - services/kplc/scraper/fetch_kplc_planned_outages.py   (module [Fetcher])
      - src/services/kplc/scraper/fetch_kplc_planned_outages.py (module [LegacyFetcher])
      - services/prediction/train_from_parquet.py             (module [Trainer])
      - src/services/prediction/train_from_parquet.py         (module [SeqTrainer])

    Python [str] values are sequences of Unicode code points and are modelled
    as [list N].  The regular expressions of the scripts are kept as regular
    expression terms and run by a small backtracking matcher that follows the
    search order of Python's [re] (leftmost start, ordered alternation,
    greedy repetition). *)

From Stdlib Require Import List NArith ZArith Bool Arith Lia String Ascii.
From Stdlib Require Import DecimalString.
From Stdlib Require Import Sorting.Sorted Sorting.Permutation.
Import ListNotations.

Set Implicit Arguments.
Local Open Scope N_scope.

(* ------------------------------------------------------------------ *)
(** ** Text *)

Module Text.

(** A Python [str]: a list of code points. *)
Definition str := list N.

(** Code points of an ASCII literal. *)
Definition cp (s : string) : str := map N_of_ascii (list_ascii_of_string s).

Definition in_range (lo hi c : N) : bool := (lo <=? c) && (c <=? hi).

(** [str.isspace] on one character, which is also the class [\s] of [re] on
    [str] patterns and the set removed by [str.strip()]. *)
Definition is_space (c : N) : bool :=
  in_range 9 13 c || in_range 28 32 c || (c =? 133) || (c =? 160)
  || (c =? 5760) || in_range 8192 8202 c || (c =? 8232) || (c =? 8233)
  || (c =? 8239) || (c =? 8287) || (c =? 12288).

(** The line boundaries of [str.splitlines]: LF, VT, FF, CR, FS, GS, RS, NEL,
    LINE SEPARATOR and PARAGRAPH SEPARATOR. *)
Definition is_linebreak (c : N) : bool :=
  in_range 10 13 c || in_range 28 30 c || (c =? 133) || (c =? 8232) || (c =? 8233).

(** First code points of the runs of ten decimal digits (category Nd) that
    [\d] accepts on [str] patterns (Unicode 14, as shipped with CPython 3.11);
    the mathematical digits form one run of fifty, listed as five runs. *)
Definition nd_starts : list N :=
  [48; 1632; 1776; 1984; 2406; 2534; 2662; 2790; 2918; 3046; 3174; 3302; 3430;
   3558; 3664; 3792; 3872; 4160; 4240; 6112; 6160; 6470; 6608; 6784; 6800;
   6992; 7088; 7232; 7248; 42528; 43216; 43264; 43472; 43504; 43600; 44016;
   65296; 66720; 68912; 69734; 69872; 69942; 70096; 70384; 70736; 70864;
   71248; 71360; 71472; 71904; 72016; 72784; 73040; 73120; 92768; 92864;
   93008; 120782; 120792; 120802; 120812; 120822; 123200; 123632; 125264;
   130032].

Definition is_digit (c : N) : bool :=
  existsb (fun s => in_range s (s + 9) c) nd_starts.

Definition is_ascii_digit (c : N) : bool := in_range 48 57 c.
Definition is_ascii_upper (c : N) : bool := in_range 65 90 c.
Definition is_ascii_lower (c : N) : bool := in_range 97 122 c.

(** Lower-casing as [re.IGNORECASE] applies it to a subject character when
    the pattern character is an ASCII letter: besides A-Z, the code points
    U+0130, U+0131 (dotted and dotless I), U+017F (long s) and U+212A
    (Kelvin sign) are identified with [i], [i], [s] and [k]. *)
Definition fold_case (c : N) : N :=
  if is_ascii_upper c then c + 32
  else if (c =? 304) || (c =? 305) then 105
  else if c =? 383 then 115
  else if c =? 8490 then 107
  else c.

(** [str.lower], as far as ASCII text can tell: besides A-Z, only U+212A
    (Kelvin sign, to [k]) and U+0130 (to [i] and a combining dot) are mapped
    to text with ASCII letters in it.  The other code points, which [lower]
    maps to code points outside ASCII, are kept: the scripts only look for
    ASCII text in the result. *)
Definition lower_char (c : N) : str :=
  if is_ascii_upper c then [c + 32]
  else if c =? 8490 then [107]
  else if c =? 304 then [105; 775]
  else [c].
Definition lower (s : str) : str := flat_map lower_char s.

Fixpoint drop_while (p : N -> bool) (s : str) : str :=
  match s with
  | [] => []
  | c :: s' => if p c then drop_while p s' else s
  end.

(** [s.lstrip()], [s.rstrip()], [s.strip()]. *)
Definition lstrip (s : str) : str := drop_while is_space s.
Definition rstrip (s : str) : str := rev (drop_while is_space (rev s)).
Definition strip (s : str) : str := rstrip (lstrip s).

(** [re.sub(r"\s+", " ", s)]: every maximal run of white space becomes one
    space; [in_run] tells that the previous character was white space. *)
Fixpoint sub_spaces (in_run : bool) (s : str) : str :=
  match s with
  | [] => []
  | c :: s' =>
      if is_space c
      then (if in_run then sub_spaces true s' else 32 :: sub_spaces true s')
      else c :: sub_spaces false s'
  end.

(** [normalize_space(s)]: [re.sub(r"\s+", " ", s)] and then [strip()]; the
    argument is a [str], so that [s or ''] is [s]. *)
Definition normalize_space (s : str) : str := strip (sub_spaces false s).

(** [s.splitlines()]: CR LF counts as one boundary, and a final boundary does
    not open an empty last line. *)
Fixpoint splitlines (s : str) : list str :=
  match s with
  | [] => []
  | c :: s' =>
      if is_linebreak c then
        [] :: splitlines (if c =? 13
                          then match s' with
                               | 10 :: s'' => s''
                               | _ => s'
                               end
                          else s')
      else match splitlines s' with
           | [] => [[c]]
           | l :: ls => (c :: l) :: ls
           end
  end.

(** [s[:n]]. *)
Definition take (n : nat) (s : str) : str := firstn n s.

Fixpoint str_eqb (a b : str) : bool :=
  match a, b with
  | [], [] => true
  | x :: a', y :: b' => (x =? y) && str_eqb a' b'
  | _, _ => false
  end.

(** [a < b] and [a <= b] on [str]: lexicographic on code points. *)
Fixpoint str_ltb (a b : str) : bool :=
  match a, b with
  | _, [] => false
  | [], _ :: _ => true
  | x :: a', y :: b' => (x <? y) || ((x =? y) && str_ltb a' b')
  end.

Definition str_leb (a b : str) : bool := negb (str_ltb b a).

Fixpoint starts_with (pre s : str) : bool :=
  match pre, s with
  | [], _ => true
  | x :: pre', y :: s' => (x =? y) && starts_with pre' s'
  | _ :: _, [] => false
  end.

Definition ends_with (suf s : str) : bool := starts_with (rev suf) (rev s).

(** [needle in s]. *)
Fixpoint contains (needle s : str) : bool :=
  starts_with needle s ||
  match s with
  | [] => false
  | _ :: s' => contains needle s'
  end.

(** The value of a decimal digit (category Nd). *)
Definition digit_value (c : N) : option N :=
  match find (fun s => in_range s (s + 9) c) nd_starts with
  | Some s => Some (c - s)
  | None => None
  end.

(** The digits of [int(s)]: decimal digits, with single underscores allowed
    between two digits. *)
Fixpoint int_digits (acc : N) (after_digit : bool) (s : str) : option N :=
  match s with
  | [] => if after_digit then Some acc else None
  | c :: s' =>
      if c =? 95 then (if after_digit then int_digits acc false s' else None)
      else match digit_value c with
           | Some v => int_digits (10 * acc + v) true s'
           | None => None
           end
  end.

(** [int(s)] in base ten; [None] stands for ValueError. *)
Definition py_int (s : str) : option Z :=
  match strip s with
  | 43 :: digits => option_map Z.of_N (int_digits 0 false digits)
  | 45 :: digits => option_map (fun n => (- Z.of_N n)%Z) (int_digits 0 false digits)
  | digits => option_map Z.of_N (int_digits 0 false digits)
  end.

(** [str(n)] for a natural number. *)
Definition decimal (n : nat) : str := cp (NilZero.string_of_uint (Nat.to_uint n)).

(** [s.rsplit("/", 1)[0]]: the text before the last slash, or all of [s]
    when it has none. *)
Fixpoint before_last_slash (s : str) : option str :=
  match s with
  | [] => None
  | c :: s' =>
      match before_last_slash s' with
      | Some pre => Some (c :: pre)
      | None => if c =? 47 then Some [] else None
      end
  end.

Definition rsplit_slash_head (s : str) : str :=
  match before_last_slash s with
  | Some pre => pre
  | None => s
  end.

(** The list without its repeated elements, first occurrences kept in order
    (the loops over [seen] and [uniq]). *)
Fixpoint uniq_from (seen : list str) (xs : list str) : list str :=
  match xs with
  | [] => []
  | x :: xs' =>
      if existsb (str_eqb x) seen then uniq_from seen xs'
      else x :: uniq_from (x :: seen) xs'
  end.

Definition uniq (xs : list str) : list str := uniq_from [] xs.

(** Truthiness of a [str]. *)
Definition truthy (s : str) : bool :=
  match s with [] => false | _ => true end.

(** *** Shapes of texts *)

(** White space in [s] is the space U+0020 only, and never two in a row;
    [after_space] tells that a space stands just before [s]. *)
Fixpoint single_spaced (after_space : bool) (s : str) : bool :=
  match s with
  | [] => true
  | c :: s' =>
      if is_space c
      then (c =? 32) && negb after_space && single_spaced true s'
      else single_spaced false s'
  end.

(** The same, and [s] does not end with a space. *)
Fixpoint is_normal_from (after_space : bool) (s : str) : bool :=
  match s with
  | [] => negb after_space
  | c :: s' =>
      if is_space c
      then (c =? 32) && negb after_space && is_normal_from true s'
      else is_normal_from false s'
  end.

(** A normalized text: no white space but single spaces between other
    characters, none at the start and none at the end. *)
Definition is_normalized (s : str) : bool :=
  match s with
  | [] => true
  | _ => is_normal_from true s
  end.

(** The characters of [s] that are not white space. *)
Definition non_space (s : str) : str := filter (fun c => negb (is_space c)) s.

(** [str.upper], as far as ASCII text can tell: a-z, and the code points
    whose upper case has ASCII letters in it (sharp s, dotless i, long s,
    the ligatures ff, fi, fl, ffi, ffl, st and a few letters with marks).
    The other code points, which [upper] maps to code points outside ASCII,
    are kept: the scripts only look for ASCII text in the result. *)
Definition upper_specials : list (N * str) :=
  [ (223, [83; 83]); (305, [73]); (329, [700; 78]); (383, [83]);
    (496, [74; 780]); (7830, [72; 817]); (7831, [84; 776]);
    (7832, [87; 778]); (7833, [89; 778]); (7834, [65; 702]);
    (64256, [70; 70]); (64257, [70; 73]); (64258, [70; 76]);
    (64259, [70; 70; 73]); (64260, [70; 70; 76]); (64261, [83; 84]);
    (64262, [83; 84]) ].

Definition upper_char (c : N) : str :=
  if is_ascii_lower c then [c - 32]
  else match find (fun e => fst e =? c) upper_specials with
       | Some e => snd e
       | None => [c]
       end.
Definition upper (s : str) : str := flat_map upper_char s.

Definition is_ascii_alpha (c : N) : bool := is_ascii_upper c || is_ascii_lower c.

(** [s.split(sep)] for a separator of one character. *)
Fixpoint split_on (sep : N) (s : str) : list str :=
  match s with
  | [] => [[]]
  | c :: s' =>
      if c =? sep then [] :: split_on sep s'
      else match split_on sep s' with
           | [] => [[c]]
           | p :: ps => (c :: p) :: ps
           end
  end.

End Text.
Import Text.

(* ------------------------------------------------------------------ *)
(** ** Regular expressions *)

Module Re.

(** The patterns of the scripts only repeat single character classes, so the
    repetition [Star] is taken over a class; [x+] is [Cat (Chr x) (Star x)],
    [r?] is [Alt r Eps], and bounded repetitions are unfolded. *)
Inductive re : Type :=
| Eps : re
| Bol : re                        (* ^ without re.MULTILINE *)
| Chr : (N -> bool) -> re         (* one character of a class *)
| Cat : re -> re -> re
| Alt : re -> re -> re            (* ordered alternation *)
| Star : (N -> bool) -> re        (* greedy x* over a class *)
| Grp : nat -> re -> re.          (* capturing group number i *)

Definition Plus (p : N -> bool) : re := Cat (Chr p) (Star p).
Definition Opt (r : re) : re := Alt r Eps.

Fixpoint Seq (rs : list re) : re :=
  match rs with
  | [] => Eps
  | [r] => r
  | r :: rs' => Cat r (Seq rs')
  end.

(** Character classes. *)
Definition one (c : N) : N -> bool := fun x => x =? c.
Definition one_i (c : N) : N -> bool := fun x => fold_case x =? fold_case c.
Definition any_of (cs : str) : N -> bool := fun x => existsb (N.eqb x) cs.
Definition none_of (cs : str) : N -> bool := fun x => negb (existsb (N.eqb x) cs).
Definition union (p q : N -> bool) : N -> bool := fun x => p x || q x.
(** [.] without re.DOTALL *)
Definition dot : N -> bool := fun x => negb (x =? 10).
(** [[A-Z]] or [[a-z]] or [[A-Za-z]] under re.IGNORECASE *)
Definition alpha_i : N -> bool := fun x => is_ascii_lower (fold_case x).

(** The literal text [s], and the same under re.IGNORECASE. *)
Definition lit (s : string) : re := Seq (map (fun c => Chr (one c)) (cp s)).
Definition lit_i (s : string) : re := Seq (map (fun c => Chr (one_i c)) (cp s)).

(** Captures: group number and captured text, latest first. *)
Definition caps := list (nat * str).

Fixpoint group (i : nat) (c : caps) : option str :=
  match c with
  | [] => None
  | (j, s) :: c' => if Nat.eqb i j then Some s else group i c'
  end.

Section Exec.
Variable T : Type.

(** A continuation receives the position reached, the rest of the subject
    and the captures so far. *)
Definition cont := nat -> str -> caps -> option T.

Fixpoint star (p : N -> bool) (pos : nat) (s : str) (c : caps) (k : cont)
  : option T :=
  match s with
  | x :: s' =>
      if p x then
        match star p (S pos) s' c k with
        | Some t => Some t
        | None => k pos s c
        end
      else k pos s c
  | [] => k pos s c
  end.

Fixpoint exec (r : re) (pos : nat) (s : str) (c : caps) (k : cont)
  : option T :=
  match r with
  | Eps => k pos s c
  | Bol => if Nat.eqb pos 0 then k pos s c else None
  | Chr p =>
      match s with
      | x :: s' => if p x then k (S pos) s' c else None
      | [] => None
      end
  | Cat a b => exec a pos s c (fun pos1 s1 c1 => exec b pos1 s1 c1 k)
  | Alt a b =>
      match exec a pos s c k with
      | Some t => Some t
      | None => exec b pos s c k
      end
  | Star p => star p pos s c k
  | Grp i a =>
      exec a pos s c
        (fun pos1 s1 c1 => k pos1 s1 ((i, firstn (pos1 - pos) s) :: c1))
  end.
End Exec.

(** The capturing group [i] takes part in every match of the pattern. *)
Fixpoint has_group (i : nat) (r : re) : bool :=
  match r with
  | Grp j a => Nat.eqb i j || has_group i a
  | Cat a b => has_group i a || has_group i b
  | Alt a b => has_group i a && has_group i b
  | _ => false
  end.

Definition captured (i : nat) (c : caps) : bool :=
  match group i c with
  | Some _ => true
  | None => false
  end.

(** A match: where it ends, what follows it, and its groups. *)
Record rmatch : Type := mk_match
  { m_end : nat; m_rest : str; m_caps : caps }.

Definition accept : cont rmatch := fun pos s c => Some (mk_match pos s c).

(** [pattern.match(s)]: a match at the start of the subject. *)
Definition re_match (r : re) (s : str) : option rmatch := exec r 0 s [] accept.

Fixpoint search_from (r : re) (pos : nat) (s : str) : option rmatch :=
  match exec r pos s [] accept with
  | Some m => Some m
  | None =>
      match s with
      | [] => None
      | _ :: s' => search_from r (S pos) s'
      end
  end.

(** [pattern.search(s)]: the match at the leftmost position that has one. *)
Definition search (r : re) (s : str) : option rmatch := search_from r 0 s.

(** [m.group(i)]; a group that took no part in the match reads as [None]. *)
Definition mgroup (i : nat) (m : rmatch) : option str := group i (m_caps m).

(** [m.group(i)] for a group that takes part in every match of its pattern
    ([has_group]), where the default is never used. *)
Definition group_text (i : nat) (m : rmatch) : str :=
  match mgroup i m with
  | Some g => g
  | None => []
  end.

(** [pattern.findall(s)] for a pattern with one group whose matches are never
    empty: the texts of group 1 of the successive non-overlapping matches.
    [skip] counts the characters still covered by the previous match. *)
Fixpoint findall_from (r : re) (skip pos : nat) (s : str) : list str :=
  match s with
  | [] => []
  | _ :: s' =>
      match skip with
      | S n => findall_from r n (S pos) s'
      | O =>
          match exec r pos s [] accept with
          | Some m =>
              match mgroup 1 m with
              | Some g => g :: findall_from r (m_end m - pos - 1) (S pos) s'
              | None => findall_from r (m_end m - pos - 1) (S pos) s'
              end
          | None => findall_from r 0 (S pos) s'
          end
      end
  end.

Definition findall (r : re) (s : str) : list str := findall_from r 0 0 s.

End Re.
Import Re.

(* ------------------------------------------------------------------ *)
(** ** Dates and times *)

Module DateTime.

Definition is_leap (y : N) : bool :=
  ((y mod 4 =? 0) && negb (y mod 100 =? 0)) || (y mod 400 =? 0).

Definition days_in_month (y m : N) : N :=
  if m =? 2 then (if is_leap y then 29 else 28)
  else if (m =? 4) || (m =? 6) || (m =? 9) || (m =? 11) then 30
  else 31.

(** The value ranges that every [datetime.datetime] object satisfies. *)
Definition in_ranges (y mo d h mi s : N) : bool :=
  in_range 1 9999 y && in_range 1 12 mo && in_range 1 (days_in_month y mo) d
  && (h <? 24) && (mi <? 60) && (s <? 60).

(** A naive [datetime.datetime]; the ranges are part of the type, as the
    constructor of the Python class refuses values outside them. *)
Record datetime : Type := mk_datetime
  { year : N; month : N; day : N;
    hour : N; minute : N; second : N; microsecond : N;
    ranges_ok : in_ranges year month day hour minute second = true;
    microsecond_ok : (microsecond <? 1000000) = true }.

Definition digit_char (n : N) : N := 48 + n mod 10.

(** [n] in decimal on exactly [w] digits, which is ["%0wd" % n] for
    [n < 10^w]. *)
Fixpoint fixed_width (w : nat) (n : N) : str :=
  match w with
  | O => []
  | S w' => fixed_width w' (n / 10) ++ [digit_char n]
  end.

(** [d.isoformat()]: [YYYY-MM-DDTHH:MM:SS], followed by [.ffffff] when the
    microsecond field is not zero. *)
Definition isoformat (d : datetime) : str :=
  fixed_width 4 (year d) ++ cp "-" ++ fixed_width 2 (month d) ++ cp "-"
  ++ fixed_width 2 (day d) ++ cp "T" ++ fixed_width 2 (hour d) ++ cp ":"
  ++ fixed_width 2 (minute d) ++ cp ":" ++ fixed_width 2 (second d)
  ++ (if microsecond d =? 0 then [] else cp "." ++ fixed_width 6 (microsecond d)).

(** [d.replace(microsecond=0)] *)
Definition replace_microsecond0 (d : datetime) : datetime :=
  mk_datetime (year d) (month d) (day d) (hour d) (minute d) (second d) 0
    (ranges_ok d) eq_refl.

(** The profile of ISO 8601 that the notices use for instants: a calendar
    date [YYYY-MM-DD], optionally followed by [T] and a time [HH:MM],
    [HH:MM:SS] or [HH:MM:SS.f...], itself optionally followed by [Z] or by a
    numeric offset [+HH:MM] or [-HH:MM]. *)
Definition all_digits (s : str) : bool := forallb is_ascii_digit s.

Definition is_offset (s : str) : bool :=
  match s with
  | [] => true
  | [90] => true
  | [sg; a; b; 58; c; d] =>
      ((sg =? 43) || (sg =? 45)) && all_digits [a; b; c; d]
  | _ => false
  end.

Definition is_fraction_then_offset (s : str) : bool :=
  match s with
  | 46 :: f :: s' =>
      is_ascii_digit f && is_offset (drop_while is_ascii_digit s')
  | _ => is_offset s
  end.

Definition is_time_then_offset (s : str) : bool :=
  match s with
  | h1 :: h2 :: 58 :: m1 :: m2 :: s' =>
      all_digits [h1; h2; m1; m2]
      && match s' with
         | 58 :: s1 :: s2 :: s'' =>
             all_digits [s1; s2] && is_fraction_then_offset s''
         | _ => is_offset s'
         end
  | _ => false
  end.

Definition is_iso8601 (s : str) : bool :=
  match s with
  | y1 :: y2 :: y3 :: y4 :: 45 :: m1 :: m2 :: 45 :: d1 :: d2 :: s' =>
      all_digits [y1; y2; y3; y4; m1; m2; d1; d2]
      && match s' with
         | [] => true
         | 84 :: t => is_time_then_offset t
         | _ => false
         end
  | _ => false
  end.

End DateTime.
Import DateTime.

(* ------------------------------------------------------------------ *)
(** ** Built-in containers *)

Module Py.

(** A [dict] with [str] keys: its entries in insertion order.  Assigning to
    a key that is present replaces the value and keeps the position of the
    entry; assigning to a new key adds the entry at the end. *)
Definition dict (V : Type) : Type := list (str * V).

Fixpoint dict_set (V : Type) (k : str) (v : V) (d : dict V) : dict V :=
  match d with
  | [] => [(k, v)]
  | (k', v') :: d' =>
      if str_eqb k k' then (k, v) :: d' else (k', v') :: dict_set k v d'
  end.

Fixpoint dict_get (V : Type) (k : str) (d : dict V) : option V :=
  match d with
  | [] => None
  | (k', v') :: d' => if str_eqb k k' then Some v' else dict_get k d'
  end.

(** [d.values()] *)
Definition dict_values (V : Type) (d : dict V) : list V := map snd d.

(** [sorted(xs, key=key, reverse=True)] on [str] keys.  [sorted] is stable,
    also with [reverse=True]: elements with equal keys keep the order they
    have in [xs].  A stable sort has one possible result, computed here by
    insertion: [x], which comes before all of [l] in the input, is placed
    before the first element whose key is not above its own. *)
Fixpoint insert_desc (A : Type) (key : A -> str) (x : A) (l : list A) : list A :=
  match l with
  | [] => [x]
  | y :: l' =>
      if str_leb (key y) (key x) then x :: y :: l'
      else y :: insert_desc key x l'
  end.

(** [a] may stand before [b] in a list that is descending by [key]. *)
Definition key_ge (A : Type) (key : A -> str) (a b : A) : Prop :=
  str_leb (key b) (key a) = true.

Definition sorted_desc (A : Type) (key : A -> str) (xs : list A) : list A :=
  fold_right (insert_desc key) [] xs.

End Py.
Import Py.

(* ------------------------------------------------------------------ *)
(** ** Exceptions, output and the clock *)

Module Effects.

(** What a call can raise: [Exception msg] stands for an instance of any
    class that [except Exception] catches, with [str(e) = msg]; [SystemExit]
    is what [sys.exit] and the argument parser raise, which [except
    Exception] lets through. *)
Inductive exn : Type :=
| Exception (msg : str)
| SystemExit (code : Z).

Inductive result (A : Type) : Type :=
| Ok (a : A)
| Raise (e : exn).
Arguments Raise {A} e.

(** What a call into a library outside the scripts does: it returns a value
    or raises an exception that [except Exception] catches. *)
Inductive outcome (A : Type) : Type :=
| Returns (a : A)
| Fails (msg : str).
Arguments Fails {A} msg.

Section Monad.
(** The observable events of a program. *)
Variable E : Type.

(** The state threaded through a run: how many times the clock was read, and
    the events so far, oldest first. *)
Record state : Type := mk_state { clock_reads : nat; trace : list E }.

Definition M (A : Type) : Type := state -> result A * state.

Definition ret (A : Type) (a : A) : M A := fun s => (Ok a, s).

Definition bind (A B : Type) (m : M A) (k : A -> M B) : M B :=
  fun s =>
    match m s with
    | (Ok a, s') => k a s'
    | (Raise e, s') => (Raise e, s')
    end.

Definition raise (A : Type) (e : exn) : M A := fun s => (Raise e, s).

(** [try: m  except Exception as e: handler(str(e))] *)
Definition try_except (A : Type) (m : M A) (handler : str -> M A) : M A :=
  fun s =>
    match m s with
    | (Raise (Exception msg), s') => handler msg s'
    | other => other
    end.

Definition emit (e : E) : M unit :=
  fun s => (Ok tt, mk_state (clock_reads s) (trace s ++ [e])).

(** A call into a library. *)
Definition call (A : Type) (o : outcome A) : M A :=
  match o with
  | Returns a => ret a
  | Fails msg => @raise A (Exception msg)
  end.

(** [dt.datetime.utcnow()], for a clock whose [n]-th reading is [utcnow n]. *)
Definition read_clock (utcnow : nat -> datetime) : M datetime :=
  fun s => (Ok (utcnow (clock_reads s)), mk_state (S (clock_reads s)) (trace s)).

Definition start : state := mk_state 0 [].

End Monad.

Arguments ret {E A} a.
Arguments raise {E A} e.
Arguments emit {E} e.
Arguments call {E A} o.
Arguments read_clock {E} utcnow.
Arguments start {E}.

(** A computation only adds events to the trace, whether it returns or
    raises. *)
Definition grows (E A : Type) (m : M E A) : Prop :=
  forall s, exists evs, trace (snd (m s)) = trace s ++ evs.

(** The status with which the interpreter ends after
    [sys.exit(main(...))], or after a [main()] that returns [None] (taken
    as [Ok 0]): the code of a [SystemExit], and 1 after the traceback of an
    exception that nothing caught. *)
Definition exit_status (r : result Z) : Z :=
  match r with
  | Ok code => code
  | Raise (SystemExit code) => code
  | Raise (Exception _) => 1%Z
  end.

End Effects.
Import Effects.

Declare Scope monad_scope.
Delimit Scope monad_scope with monad.
Notation "x <- m ;; k" := (bind m (fun x => k))
  (at level 61, m at next level, right associativity) : monad_scope.
Notation "m ;;; k" := (bind m (fun _ => k))
  (at level 61, right associativity) : monad_scope.

(* ------------------------------------------------------------------ *)
(** ** Command lines *)

Module Argparse.

(** A command line as the parser of [argparse] reads it: plain arguments,
    options followed by their value, and the request for help.  How the
    strings of [sys.argv] are told apart (abbreviated option names, the
    [--name=value] form) is left to the library. *)
Inductive token : Type :=
| Positional (value : str)
| Named (name : str) (value : str)
| HelpRequest.

Inductive arg_type : Type := TStr | TInt.

Inductive value : Type :=
| VNone
| VStr (s : str)
| VInt (n : Z).

(** One [parser.add_argument(...)]: a positional argument [name], or an
    option [--name]. *)
Record argument : Type := mk_argument
  { a_name : str;
    a_positional : bool;
    a_required : bool;
    a_type : arg_type;
    a_default : value }.

Definition namespace : Type := dict value.

(** [type(value)] *)
Definition convert (t : arg_type) (s : str) : option value :=
  match t with
  | TStr => Some (VStr s)
  | TInt => option_map VInt (py_int s)
  end.

Definition find_option (name : str) (decls : list argument) : option argument :=
  find (fun a => negb (a_positional a) && str_eqb (cp "--" ++ a_name a) name) decls.

Definition defaults (decls : list argument) : namespace :=
  fold_left (fun ns a => dict_set (a_name a) (a_default a) ns) decls [].

(** The parser's state: the namespace, the positional arguments not yet
    filled, the names seen, and whether some token was not recognized. *)
Record pstate : Type := mk_pstate
  { p_ns : namespace; p_positionals : list argument;
    p_seen : list str; p_extras : bool }.

(** The outcome of [parse_args]: a namespace, or the exit of the process
    (status 0 after the help text, status 2 after a usage error). *)
Definition consume (decls : list argument) (st : pstate) (t : token)
  : result pstate :=
  match t with
  | HelpRequest => Raise (SystemExit 0)
  | Named name v =>
      match find_option name decls with
      | None => Ok (mk_pstate (p_ns st) (p_positionals st) (p_seen st) true)
      | Some a =>
          match convert (a_type a) v with
          | None => Raise (SystemExit 2)
          | Some x =>
              Ok (mk_pstate (dict_set (a_name a) x (p_ns st))
                    (p_positionals st) (a_name a :: p_seen st) (p_extras st))
          end
      end
  | Positional v =>
      match p_positionals st with
      | [] => Ok (mk_pstate (p_ns st) [] (p_seen st) true)
      | a :: rest =>
          match convert (a_type a) v with
          | None => Raise (SystemExit 2)
          | Some x =>
              Ok (mk_pstate (dict_set (a_name a) x (p_ns st)) rest
                    (a_name a :: p_seen st) (p_extras st))
          end
      end
  end.

Fixpoint consume_all (decls : list argument) (st : pstate) (ts : list token)
  : result pstate :=
  match ts with
  | [] => Ok st
  | t :: ts' =>
      match consume decls st t with
      | Ok st' => consume_all decls st' ts'
      | Raise e => Raise e
      end
  end.

Definition missing_required (decls : list argument) (seen : list str) : bool :=
  existsb (fun a => (a_required a || a_positional a)
                    && negb (existsb (str_eqb (a_name a)) seen)) decls.

(** [parser.parse_args(argv)] *)
Definition parse_args (decls : list argument) (argv : list token)
  : result namespace :=
  match consume_all decls
          (mk_pstate (defaults decls) (filter a_positional decls) [] false) argv
  with
  | Raise e => Raise e
  | Ok st =>
      if missing_required decls (p_seen st) then Raise (SystemExit 2)
      else if p_extras st then Raise (SystemExit 2)
      else Ok (p_ns st)
  end.

(** [args.name] *)
Definition attr (ns : namespace) (name : string) : value :=
  match dict_get (cp name) ns with
  | Some v => v
  | None => VNone
  end.

(** [args.name] for an attribute that holds a [str] or [None]. *)
Definition attr_str (ns : namespace) (name : string) : str :=
  match attr ns name with
  | VStr s => s
  | _ => []
  end.

End Argparse.
Import Argparse.

(* ------------------------------------------------------------------ *)
(** ** JSON output *)

Module Json.

Definition hex_digit (n : N) : N := if n <? 10 then 48 + n else 87 + n.

(** The escapes of [json.dumps(..., ensure_ascii=False)]. *)
Definition escape_char (c : N) : str :=
  if c =? 34 then cp "\" ++ [34]
  else if c =? 92 then cp "\\"
  else if c =? 10 then cp "\n"
  else if c =? 13 then cp "\r"
  else if c =? 9 then cp "\t"
  else if c =? 8 then cp "\b"
  else if c =? 12 then cp "\f"
  else if c <? 32 then cp "\u00" ++ [hex_digit (c / 16); hex_digit (c mod 16)]
  else [c].

Definition quoted (s : str) : str := [34] ++ flat_map escape_char s ++ [34].

(** [sep.join(xs)] *)
Fixpoint join (sep : str) (xs : list str) : str :=
  match xs with
  | [] => []
  | [x] => x
  | x :: xs' => x ++ sep ++ join sep xs'
  end.

(** A dict with [str] values as an object, at nesting depth one of an
    output that is indented by two spaces. *)
Definition dump_object (entries : list (string * str)) : str :=
  cp "{" ++ [10]
  ++ join (cp "," ++ [10])
       (map (fun e => cp "    " ++ quoted (cp (fst e)) ++ cp ": " ++ quoted (snd e))
            entries)
  ++ [10] ++ cp "  }".

(** [json.dumps(objects, ensure_ascii=False, indent=2)] for a list of
    objects already rendered. *)
Definition dump_list (objects : list str) : str :=
  match objects with
  | [] => cp "[]"
  | _ =>
      cp "[" ++ [10]
      ++ join (cp "," ++ [10]) (map (fun o => cp "  " ++ o) objects)
      ++ [10] ++ cp "]"
  end.

(** *** Reading a string back *)

Definition hex_value (c : N) : option N :=
  if in_range 48 57 c then Some (c - 48)
  else if in_range 97 102 c then Some (c - 87)
  else if in_range 65 70 c then Some (c - 55)
  else None.

(** The character for which a two-character escape stands. *)
Definition simple_escape (c : N) : option N :=
  if c =? 34 then Some 34
  else if c =? 92 then Some 92
  else if c =? 47 then Some 47
  else if c =? 98 then Some 8
  else if c =? 102 then Some 12
  else if c =? 110 then Some 10
  else if c =? 114 then Some 13
  else if c =? 116 then Some 9
  else None.

Definition push (c : N) (r : option (str * str)) : option (str * str) :=
  match r with
  | Some (t, rest) => Some (c :: t, rest)
  | None => None
  end.

(** The reading of a JSON string after its opening quote, as the grammar of
    JSON has it (RFC 8259, section 7): characters up to the closing quote,
    with the two-character escapes and the escape by four hexadecimal
    digits; a control character or the end of the text before the closing
    quote is an error.  The result is the text read and what follows the
    closing quote. *)
Fixpoint read_chars (s : str) : option (str * str) :=
  match s with
  | [] => None
  | c :: rest =>
      if c =? 34 then Some ([], rest)
      else if c =? 92 then
        match rest with
        | [] => None
        | e :: rest' =>
            if e =? 117 then
              match rest' with
              | h1 :: h2 :: h3 :: h4 :: rest'' =>
                  match hex_value h1, hex_value h2, hex_value h3, hex_value h4 with
                  | Some a, Some b, Some x, Some y =>
                      push (4096 * a + 256 * b + 16 * x + y) (read_chars rest'')
                  | _, _, _, _ => None
                  end
              | _ => None
              end
            else
              match simple_escape e with
              | Some x => push x (read_chars rest')
              | None => None
              end
        end
      else if c <? 32 then None
      else push c (read_chars rest)
  end.

Definition read_string (s : str) : option (str * str) :=
  match s with
  | c :: rest => if c =? 34 then read_chars rest else None
  | [] => None
  end.

End Json.
Import Json.

(* ------------------------------------------------------------------ *)
(** ** The fetcher: services/kplc/scraper/fetch_kplc_planned_outages.py *)

Module Fetcher.

(** An outage notice: the dict with the keys [id], [region], [area],
    [startTime], [endTime], [sourceUrl] and [createdAt], all of them [str]. *)
Record OutageNotice : Type := mk_notice
  { id : str; region : str; area : str;
    startTime : str; endTime : str;
    sourceUrl : str; createdAt : str }.

(** [date_re]: (?i)date\s*:\s*([A-Za-z]+\s*\d{1,2}[./-]\d{1,2}[./-]\d{4}) *)
Definition date_sep : N -> bool := any_of (cp "./-").
Definition date_re : re :=
  Seq [lit_i "date"; Star is_space; Chr (one 58); Star is_space;
       Grp 1 (Seq [Plus alpha_i; Star is_space;
                   Chr is_digit; Opt (Chr is_digit); Chr date_sep;
                   Chr is_digit; Opt (Chr is_digit); Chr date_sep;
                   Chr is_digit; Chr is_digit; Chr is_digit; Chr is_digit])].

(** [time_re]: (?i)time\s*:\s*([0-9.:\sAPMapm–\-]+); 8211 is the en dash. *)
Definition time_chars : N -> bool :=
  union is_ascii_digit (union (any_of (cp ".:APMapm-")) (union is_space (one 8211))).
Definition time_re : re :=
  Seq [lit_i "time"; Star is_space; Chr (one 58); Star is_space;
       Grp 1 (Plus time_chars)].

(** [area_re]: (?i)^area\s*:\s*(.+) *)
Definition area_re : re :=
  Seq [Bol; lit_i "area"; Star is_space; Chr (one 58); Star is_space;
       Grp 1 (Plus dot)].

(** [region_re]:
    (?i)(region\s*:\s*|^)([A-Z\s]+REGION|PARTS OF [A-Z\s]+ COUNTY) *)
Definition region_chars : N -> bool := union alpha_i is_space.
Definition region_re : re :=
  Cat (Grp 1 (Alt (Seq [lit_i "region"; Star is_space; Chr (one 58); Star is_space])
                  Bol))
      (Grp 2 (Alt (Cat (Plus region_chars) (lit_i "REGION"))
                  (Seq [lit_i "PARTS OF "; Plus region_chars; lit_i " COUNTY"]))).

(** The pattern of [parse_with_regex], under (?i): one group made of
    power\s+maintenance\s+notice and then any number of [^<\n\r]. *)
Definition notice_re : re :=
  Grp 1 (Seq [lit_i "power"; Plus is_space; lit_i "maintenance"; Plus is_space;
              lit_i "notice"; Star (none_of [60; 10; 13])]).

(** At least one of region, area, start and end is not empty. *)
Definition notice_has_field (r : OutageNotice) : bool :=
  truthy (region r) || truthy (area r) || truthy (startTime r)
  || truthy (endTime r).

(** The local variables of [parse_pdf_for_outages] that the loop and [flush]
    update: the four fields in progress and the list of records. *)
Record scan : Type := mk_scan
  { s_region : str; s_area : str; s_start : str; s_end : str;
    s_outages : list OutageNotice }.

Definition scan_init : scan := mk_scan [] [] [] [] [].

(** Every record emitted so far has one of its four fields filled. *)
Definition all_have_field (st : scan) : Prop :=
  Forall (fun r => notice_has_field r = true) (s_outages st).

Definition scan_has_field (st : scan) : bool :=
  truthy (s_region st) || truthy (s_area st) || truthy (s_start st)
  || truthy (s_end st).

Section Extractor.

(** [hashlib.sha1(text.encode("utf-8", errors="ignore")).hexdigest()] *)
Variable sha1_hexdigest : str -> str.

(** The environment variable KPLC_SOURCE_URL, if set. *)
Variable environ_KPLC_SOURCE_URL : option str.

Definition DEFAULT_SOURCE_URL : str :=
  match environ_KPLC_SOURCE_URL with
  | Some u => u
  | None => cp "https://www.kplc.co.ke/customer-support#powerschedule"
  end.

Definition hash_id (text : str) : str := take 16 (sha1_hexdigest text).

(** [dt.datetime.utcnow().replace(microsecond=0).isoformat() + "Z"], for
    [now] the value read from the clock. *)
Definition now_iso_of (now : datetime) : str :=
  isoformat (replace_microsecond0 now) ++ cp "Z".

Section Scan.
Variable now_iso : str.
Variable pdf_url : str.

(** The dict that [flush] appends: the fields in progress as a record. *)
Definition in_progress_notice (st : scan) : OutageNotice :=
  {| id := hash_id (pdf_url ++ cp "|" ++ s_region st ++ cp "|" ++ s_area st
                    ++ cp "|" ++ s_start st ++ cp "|" ++ s_end st);
     region := s_region st;
     area := s_area st;
     startTime := s_start st;
     endTime := s_end st;
     sourceUrl := pdf_url;
     createdAt := now_iso |}.

(** The inner function [flush]. *)
Definition flush (st : scan) : scan :=
  if truthy (s_area st) || truthy (s_start st) || truthy (s_end st)
     || truthy (s_region st)
  then mk_scan [] [] [] [] (s_outages st ++ [in_progress_notice st])
  else st.

(** The body of the loop [for ln in lines]. *)
Definition scan_line (st : scan) (ln : str) : scan :=
  if negb (truthy ln) then st
  else
    match search region_re ln with
    | Some m =>
        let st' := flush st in
        mk_scan (strip (group_text 2 m)) (s_area st') (s_start st')
                (s_end st') (s_outages st')
    | None =>
    match search area_re ln with
    | Some m =>
        mk_scan (s_region st) (strip (group_text 1 m)) (s_start st)
                (s_end st) (s_outages st)
    | None =>
    match search date_re ln with
    | Some m =>
        mk_scan (s_region st) (s_area st) (strip (group_text 1 m))
                (s_end st) (s_outages st)
    | None =>
    match search time_re ln with
    | Some m =>
        mk_scan (s_region st) (s_area st) (s_start st)
                (strip (group_text 1 m)) (s_outages st)
    | None => st
    end end end end.

(** Closing the record in progress, as the specification words it: a record
    is in progress when one of the four fields is filled; closing it emits
    one record, made of the four fields as they stand, the source URL and
    the time of the extraction, with the digest of the URL and the four
    fields as id.  With no record in progress closing emits nothing. *)
Definition closed_notice (st : scan) : OutageNotice :=
  mk_notice
    (hash_id (pdf_url ++ cp "|" ++ s_region st ++ cp "|" ++ s_area st
              ++ cp "|" ++ s_start st ++ cp "|" ++ s_end st))
    (s_region st) (s_area st) (s_start st) (s_end st) pdf_url now_iso.

Definition records_after_close (st : scan) : list OutageNotice :=
  if scan_has_field st then s_outages st ++ [closed_notice st]
  else s_outages st.

(** The scan as the specification words it.  One step reads one line: a
    blank line changes nothing; a line with a region marker closes the record
    in progress and opens a new one, whose only filled field is the region
    found on the line; otherwise the first of the area, date and time-range
    markers found on the line fills its field and leaves the rest, records
    included, as they are; a line with no marker changes nothing. *)
Inductive scan_step (st : scan) (ln : str) : scan -> Prop :=
| step_blank :
    ln = [] -> scan_step st ln st
| step_region : forall m,
    ln <> [] -> search region_re ln = Some m ->
    scan_step st ln
      (mk_scan (strip (group_text 2 m)) [] [] [] (records_after_close st))
| step_area : forall m,
    ln <> [] -> search region_re ln = None -> search area_re ln = Some m ->
    scan_step st ln
      (mk_scan (s_region st) (strip (group_text 1 m)) (s_start st) (s_end st)
               (s_outages st))
| step_date : forall m,
    ln <> [] -> search region_re ln = None -> search area_re ln = None ->
    search date_re ln = Some m ->
    scan_step st ln
      (mk_scan (s_region st) (s_area st) (strip (group_text 1 m)) (s_end st)
               (s_outages st))
| step_time : forall m,
    ln <> [] -> search region_re ln = None -> search area_re ln = None ->
    search date_re ln = None -> search time_re ln = Some m ->
    scan_step st ln
      (mk_scan (s_region st) (s_area st) (s_start st) (strip (group_text 1 m))
               (s_outages st))
| step_plain :
    ln <> [] -> search region_re ln = None -> search area_re ln = None ->
    search date_re ln = None -> search time_re ln = None ->
    scan_step st ln st.

(** One pass over the lines, first to last. *)
Inductive scan_run : list str -> scan -> scan -> Prop :=
| run_done : forall st, scan_run [] st st
| run_line : forall ln lines st st' st'',
    scan_step st ln st' -> scan_run lines st' st'' ->
    scan_run (ln :: lines) st st''.

(** The records after the loop and the final [flush()]. *)
Definition structured_scan (lines : list str) : list OutageNotice :=
  s_outages (flush (fold_left scan_line lines scan_init)).

(** The generic entry of the fallback branch. *)
Definition fallback_notice (first_line : str) : OutageNotice :=
  {| id := hash_id pdf_url;
     region := take 120 first_line;
     area := cp "Planned maintenance";
     startTime := [];
     endTime := [];
     sourceUrl := pdf_url;
     createdAt := now_iso |}.

Definition scan_with_fallback (lines : list str) : list OutageNotice :=
  match structured_scan lines, lines with
  | [], first_line :: _ => [fallback_notice first_line]
  | outages, _ => outages
  end.
End Scan.

Definition normalized_lines (text : str) : list str :=
  map normalize_space (splitlines text).

(** [parse_pdf_for_outages(text, pdf_url)], with [now] the value of
    [dt.datetime.utcnow()] at entry. *)
Definition parse_pdf_for_outages (now : datetime) (text pdf_url : str)
  : list OutageNotice :=
  scan_with_fallback (now_iso_of now) pdf_url (normalized_lines text).

(** The generic entry that the two HTML parsers build from a text. *)
Definition coarse_notice (now_iso t : str) : OutageNotice :=
  {| id := hash_id t;
     region := take 120 t;
     area := cp "Planned maintenance";
     startTime := [];
     endTime := [];
     sourceUrl := DEFAULT_SOURCE_URL;
     createdAt := now_iso |}.

(** [parse_with_regex(html)] *)
Definition parse_with_regex (now : datetime) (html : str) : list OutageNotice :=
  map (fun m => coarse_notice (now_iso_of now) (normalize_space m))
      (firstn 50 (findall notice_re html)).

End Extractor.

(** A time field that is empty, or the text found after a time marker on
    one of the lines, stripped and otherwise as it stands there. *)
Definition raw_time_of (lines : list str) (t : str) : Prop :=
  t = [] \/
  exists ln m,
    In ln lines /\ search time_re ln = Some m /\ t = strip (group_text 1 m).

(** The end field in progress and the end times already emitted are raw
    time texts of the lines. *)
Definition ends_are_raw (lines : list str) (st : scan) : Prop :=
  raw_time_of lines (s_end st)
  /\ Forall (fun r => raw_time_of lines (endTime r)) (s_outages st).

(** Both time fields are empty. *)
Definition no_times (r : OutageNotice) : Prop :=
  startTime r = [] /\ endTime r = [].

(** A time field as the data model describes it. *)
Definition iso_or_empty (t : str) : Prop :=
  t = [] \/ is_iso8601 t = true.

(** The last record of [items] that has the id [k], if there is one. *)
Fixpoint last_with_id (k : str) (items : list OutageNotice) : option OutageNotice :=
  match items with
  | [] => None
  | it :: rest =>
      match last_with_id k rest with
      | Some r => Some r
      | None => if str_eqb (id it) k then Some it else None
      end
  end.

(** [a] may stand before [b] in a list that is descending by [createdAt]. *)
Definition created_ge : OutageNotice -> OutageNotice -> Prop :=
  key_ge createdAt.

(** [merge_and_sort(items)] *)
Definition dedup_loop (items : list OutageNotice) (dedup : dict OutageNotice)
  : dict OutageNotice :=
  fold_left (fun dedup it => dict_set (id it) it dedup) items dedup.

Definition dedup_by_id (items : list OutageNotice) : dict OutageNotice :=
  dedup_loop items [].

Definition merge_and_sort (items : list OutageNotice) : list OutageNotice :=
  sorted_desc createdAt (dict_values (dedup_by_id items)).

(** *** The program and its surroundings *)

(** What the fetcher observes of the world outside it.  Each field stands
    for one call into a library; [bytes] are kept as a list of numbers. *)
Record world : Type := mk_world
  { (* os.environ.get("KPLC_SOURCE_URL") *)
    w_environ_source : option str;
    (* hashlib.sha1(text.encode("utf-8", errors="ignore")).hexdigest() *)
    w_sha1_hexdigest : str -> str;
    (* the successive values of dt.datetime.utcnow() *)
    w_utcnow : nat -> datetime;
    (* the body of http_get(url): the urllib request and the decoding *)
    w_http_get : str -> outcome str;
    (* whether "from bs4 import BeautifulSoup" succeeds *)
    w_bs4_importable : bool;
    (* [a["href"] for a in BeautifulSoup(html, "html.parser").find_all("a", href=True)] *)
    w_soup_hrefs : str -> outcome (list str);
    (* BeautifulSoup(html, "html.parser").find_all(text=True) *)
    w_soup_texts : str -> outcome (list str);
    (* urllib.request.urlopen(url, timeout=30).read() *)
    w_urlopen_read : str -> outcome (list N);
    (* the import of pdfminer and extract_text(io.BytesIO(data)) or '' *)
    w_pdfminer_text : list N -> outcome str;
    (* the import of PyPDF2, the reader, and page.extract_text() or '' for
       each of its pages *)
    w_pypdf2_pages : list N -> outcome (list (outcome str));
    (* ensure_parent_dir(path), open(path, "w", encoding="utf-8"), f.write(payload) *)
    w_write_file : str -> str -> outcome unit }.

(** The observable events of a run of the fetcher. *)
Inductive event : Type :=
| HttpGet (url : str)
| LinkExtraction
| PdfFetch (url : str)
| RecordExtraction (url : str)
| ListScan
| RegexScan
| Stdout (line : str)
| Stderr (line : str)
| FileWrite (path payload : str).

Local Open Scope monad_scope.

(** The pattern of [extract_pdf_links_bs4]: ^(https?://[^/]+) *)
Definition host_re : re :=
  Seq [Bol; Grp 1 (Seq [lit "http"; Opt (Chr (one 115)); lit "://";
                        Plus (none_of [47])])].

(** The body of the loop over the anchors: the absolute URL of a link to a
    PDF, nothing for another link. *)
Definition pdf_link (base_url href : str) : list str :=
  let href := strip href in
  if ends_with (cp ".pdf") (lower href) then
    if starts_with (cp "http") href then [href]
    else if starts_with (cp "/") href then
      let host := match re_match host_re base_url with
                  | Some m => group_text 1 m
                  | None => []
                  end in
      [host ++ href]
    else [rsplit_slash_head base_url ++ cp "/" ++ href]
  else [].

(** [extract_pdf_links_bs4(html, base_url)] *)
Definition extract_pdf_links_bs4 (w : world) (html base_url : str)
  : M event (list str) :=
  emit LinkExtraction ;;;
  if negb (w_bs4_importable w) then ret []
  else
    hrefs <- call (w_soup_hrefs w html) ;;
    ret (uniq (flat_map (pdf_link base_url) hrefs)).

(** The HTML parser does not raise while [extract_pdf_links_bs4] reads the
    links of [html]: bs4 is missing, so that no parser runs, or the parser
    returns the links. *)
Definition links_readable (w : world) (html : str) : Prop :=
  w_bs4_importable w = false
  \/ exists hrefs, w_soup_hrefs w html = Returns hrefs.

Definition keywords : list str :=
  [cp "Power Maintenance Notice"; cp "Planned"; cp "Interruption"; cp "Outage"].

Definition has_keyword (t : str) : bool :=
  existsb (fun k => contains (lower k) (lower t)) keywords
  && (12 <? List.length t)%nat.

(** [parse_list_section_bs4(html)] *)
Definition parse_list_section_bs4 (w : world) (html : str)
  : M event (list OutageNotice) :=
  emit ListScan ;;;
  if negb (w_bs4_importable w) then ret []
  else
    nodes <- call (w_soup_texts w html) ;;
    let texts := filter has_keyword (map normalize_space nodes) in
    now <- read_clock (w_utcnow w) ;;
    ret (map (coarse_notice (w_sha1_hexdigest w) (w_environ_source w)
                (now_iso_of now))
             (firstn 50 (uniq texts))).

(** The PyPDF2 part of [fetch_pdf_text]: the texts of the pages are added to
    [text]; an exception anywhere makes the result empty. *)
Fixpoint add_pages (text : str) (pages : list (outcome str)) : option str :=
  match pages with
  | [] => Some text
  | Returns t :: pages' => add_pages (text ++ t) pages'
  | Fails _ :: _ => None
  end.

Definition pypdf2_text (w : world) (data : list N) (text : str) : str :=
  match w_pypdf2_pages w data with
  | Returns pages =>
      match add_pages text pages with
      | Some t => t
      | None => []
      end
  | Fails _ => []
  end.

(** [fetch_pdf_text(url)] *)
Definition fetch_pdf_text (w : world) (url : str) : M event str :=
  emit (PdfFetch url) ;;;
  data <- call (w_urlopen_read w url) ;;
  match w_pdfminer_text w data with
  | Returns text =>
      if truthy (strip text) then ret text
      else ret (pypdf2_text w data text)
  | Fails _ => ret (pypdf2_text w data [])
  end.

(** [parse_pdf_for_outages(txt, pdf)] as called by [main]: the clock is read
    at entry. *)
Definition run_parse_pdf_for_outages (w : world) (txt pdf : str)
  : M event (list OutageNotice) :=
  emit (RecordExtraction pdf) ;;;
  now <- read_clock (w_utcnow w) ;;
  ret (parse_pdf_for_outages (w_sha1_hexdigest w) now txt pdf).

(** [parse_with_regex(html)] as called by [main]. *)
Definition run_parse_with_regex (w : world) (html : str)
  : M event (list OutageNotice) :=
  emit RegexScan ;;;
  now <- read_clock (w_utcnow w) ;;
  ret (parse_with_regex (w_sha1_hexdigest w) (w_environ_source w) now html).

(** The body of [for pdf in pdf_links[:15]], with the guard around it. *)
Definition pdf_step (w : world) (items : list OutageNotice) (pdf : str)
  : M event (list OutageNotice) :=
  try_except
    (txt <- fetch_pdf_text w pdf ;;
     if negb (truthy txt) then ret items
     else
       found <- run_parse_pdf_for_outages w txt pdf ;;
       ret (items ++ found))
    (fun e =>
       emit (Stderr (cp "WARN: failed pdf parse " ++ pdf ++ cp ": " ++ e)) ;;;
       ret items).

Fixpoint pdf_loop (w : world) (items : list OutageNotice) (pdfs : list str)
  : M event (list OutageNotice) :=
  match pdfs with
  | [] => ret items
  | pdf :: pdfs' =>
      items' <- pdf_step w items pdf ;;
      pdf_loop w items' pdfs'
  end.

(** The [else] branch of [main]: the text of the page, then the raw HTML. *)
Definition page_fallback (w : world) (html : str) : M event (list OutageNotice) :=
  items <- try_except (parse_list_section_bs4 w html)
             (fun e =>
                emit (Stderr (cp "WARN: bs4 list parse failed: " ++ e)) ;;;
                ret []) ;;
  match items with
  | [] =>
      try_except (run_parse_with_regex w html)
        (fun e =>
           emit (Stderr (cp "WARN: regex parse failed: " ++ e)) ;;;
           ret items)
  | _ => ret items
  end.

(** The three strategies of [main], in its order. *)
Definition collect_items (w : world) (html source : str)
  : M event (list OutageNotice) :=
  pdf_links <- extract_pdf_links_bs4 w html source ;;
  match pdf_links with
  | _ :: _ => pdf_loop w [] (firstn 15 pdf_links)
  | [] => page_fallback w html
  end.

(** [json.dumps(items, ensure_ascii=False, indent=2)] *)
Definition dump_notice (r : OutageNotice) : str :=
  dump_object
    [("id"%string, id r); ("region"%string, region r); ("area"%string, area r);
     ("startTime"%string, startTime r); ("endTime"%string, endTime r);
     ("sourceUrl"%string, sourceUrl r); ("createdAt"%string, createdAt r)].

Definition json_dumps (items : list OutageNotice) : str :=
  dump_list (map dump_notice items).

(** The arguments that [main] declares. *)
Definition arguments (w : world) : list argument :=
  [ mk_argument (cp "output") true true TStr VNone;
    mk_argument (cp "mirror") false false TStr VNone;
    mk_argument (cp "source") false false TStr
      (VStr (DEFAULT_SOURCE_URL (w_environ_source w))) ].

Definition write_output (w : world) (items : list OutageNotice)
    (payload path : str) : M event unit :=
  try_except
    (call (w_write_file w path payload) ;;;
     emit (FileWrite path payload) ;;;
     emit (Stdout (cp "Wrote " ++ decimal (List.length items) ++ cp " outages -> "
                   ++ path)))
    (fun e => emit (Stderr (cp "ERROR: failed writing output: " ++ e))).

Definition write_mirror (w : world) (payload path : str) : M event unit :=
  try_except
    (call (w_write_file w path payload) ;;;
     emit (FileWrite path payload) ;;;
     emit (Stdout (cp "Mirrored -> " ++ path)))
    (fun e => emit (Stderr (cp "WARN: failed to mirror output: " ++ e))).

(** The first guarded block of [main]: the page, or the empty text when
    the request fails. *)
Definition fetch_html (w : world) (source : str) : M event str :=
  try_except
    (emit (HttpGet source) ;;; call (w_http_get w source))
    (fun e =>
       emit (Stderr (cp "WARN: failed to fetch source: " ++ e)) ;;;
       ret []).

(** [main(argv)] *)
Definition main (w : world) (argv : list token) : M event Z :=
  match parse_args (arguments w) argv with
  | Raise e => raise e
  | Ok args =>
      let source := attr_str args "source" in
      html <- fetch_html w source ;;
      items <- collect_items w html source ;;
      let items := merge_and_sort items in
      let payload := json_dumps items in
      write_output w items payload (attr_str args "output") ;;;
      (if truthy (attr_str args "mirror")
       then write_mirror w payload (attr_str args "mirror")
       else ret tt) ;;;
      ret 0%Z
  end.

(** The process: [sys.exit(main(sys.argv[1:]))]. *)
Definition run (w : world) (argv : list token) : Z * list event :=
  let (r, s) := main w argv start in (exit_status r, trace s).

(** *** Reading a trace *)

(** The events of the PDF strategy: fetches, record extractions, and the
    warnings of the guard. *)
Definition is_pdf_event (e : event) : bool :=
  match e with
  | PdfFetch _ | RecordExtraction _ | Stderr _ => true
  | _ => false
  end.

(** The events of the two page strategies, warnings included. *)
Definition is_page_event (e : event) : bool :=
  match e with
  | ListScan | RegexScan | Stderr _ => true
  | _ => false
  end.

(** The URLs of the PDFs fetched, and of those handed to the record
    extractor, in the order of the events. *)
Definition fetched (evs : list event) : list str :=
  flat_map (fun e => match e with PdfFetch u => [u] | _ => [] end) evs.

Definition extracted (evs : list event) : list str :=
  flat_map (fun e => match e with RecordExtraction u => [u] | _ => [] end) evs.

(** The files written, with their payloads. *)
Definition written (evs : list event) : list (str * str) :=
  flat_map (fun e => match e with FileWrite p c => [(p, c)] | _ => [] end) evs.


(** *** Counting and shapes *)

(** The lines on which the scan finds a region marker. *)
Definition is_region_line (ln : str) : bool :=
  truthy ln && match search region_re ln with Some _ => true | None => false end.

Definition region_lines (lines : list str) : nat :=
  List.length (filter is_region_line lines).

(** A link to a PDF: it ends with [.pdf], in any case. *)
Definition is_pdf_url (u : str) : bool := ends_with (cp ".pdf") (lower u).

(** A time stamp as [now_iso]: ISO 8601, in UTC, to the second. *)
Definition is_utc_stamp (t : str) : bool :=
  is_iso8601 t && (List.length t =? 20)%nat && ends_with (cp "Z") t.

(** What every record of the two HTML parsers looks like, whatever the page:
    a region of at most 120 characters without leading or repeated white
    space, the fixed area, and the default source URL. *)
Definition is_coarse_record (environ_source : option str) (r : OutageNotice) : Prop :=
  (List.length (region r) <= 120)%nat
  /\ single_spaced true (region r) = true
  /\ area r = cp "Planned maintenance"
  /\ sourceUrl r = DEFAULT_SOURCE_URL environ_source.

(** What one attempt to write [payload] to [path] leaves in the file
    system. *)
Definition file_written (w : world) (path payload : str) : list (str * str) :=
  match w_write_file w path payload with
  | Returns _ => [(path, payload)]
  | Fails _ => []
  end.

End Fetcher.

(* ------------------------------------------------------------------ *)
(** ** The earlier fetcher: src/services/kplc/scraper/fetch_kplc_planned_outages.py *)

Module LegacyFetcher.

(** (\d{1,2}[./-]\d{1,2}[./-]\d{2,4}) *)
Definition date_match_re : re :=
  Grp 1 (Seq [Chr is_digit; Opt (Chr is_digit); Chr (any_of (cp "./-"));
              Chr is_digit; Opt (Chr is_digit); Chr (any_of (cp "./-"));
              Chr is_digit; Chr is_digit;
              Opt (Cat (Chr is_digit) (Opt (Chr is_digit)))]).

Definition meridiem : re :=
  Alt (lit "AM") (Alt (lit "PM") (Alt (lit "am") (lit "pm"))).

(** \d{1,2}:\d{2}\s*(AM|PM|am|pm)? with its two groups numbered [i], [j]. *)
Definition clock_re (i j : nat) : re :=
  Grp i (Seq [Chr is_digit; Opt (Chr is_digit); Chr (one 58);
              Chr is_digit; Chr is_digit; Star is_space;
              Opt (Grp j meridiem)]).

(** The time range: a clock time, one or more of [\s\-toTO], a clock time. *)
Definition time_range_re : re :=
  Seq [clock_re 1 2; Plus (union is_space (any_of (cp "-toTO"))); clock_re 3 4].

(** [s.replace('.', '/').replace('-', '/')] *)
Definition slashes (s : str) : str :=
  map (fun c => if (c =? 46) || (c =? 45) then 47 else c) s.

Section WithStrptime.

(** [datetime.strptime(text, format)]; [None] stands for the exception. *)
Variable strptime : str -> str -> option datetime.

(** [try: strptime(text, 12-hour format)], then the 24-hour format, then
    [None]. *)
Definition parse_clock (text : str) : option datetime :=
  match strptime text (cp "%d/%m/%Y %I:%M %p") with
  | Some d => Some d
  | None => strptime text (cp "%d/%m/%Y %H:%M")
  end.

(** [parse_datetime_range(text)]: the pair [(start_iso, end_iso)]. *)
Definition parse_datetime_range (text : str) : option str * option str :=
  match search date_match_re text, search time_range_re text with
  | Some date_match, Some time_range =>
      let date_str := slashes (group_text 1 date_match) in
      let start_t := group_text 1 time_range in
      let end_t := group_text 3 time_range in
      (option_map isoformat (parse_clock (date_str ++ cp " " ++ start_t)),
       option_map isoformat (parse_clock (date_str ++ cp " " ++ end_t)))
  | _, _ => (None, None)
  end.

(** [x or ''], as [fetch] stores the two results in [startTime] and
    [endTime]. *)
Definition or_empty (x : option str) : str :=
  match x with
  | Some s => s
  | None => []
  end.

End WithStrptime.


(** *** The scraper *)

Definition SOURCE_URL : str := cp "https://kplc.co.ke/customer-support#powerschedule".

(** [normalize(text)], the [normalize_space] of this file. *)
Definition normalize (text : str) : str := normalize_space text.

(** Region[:\-]\s*([A-Za-z\s]+) *)
Definition region_re : re :=
  Seq [lit "Region"; Chr (any_of (cp ":-")); Star is_space;
       Grp 1 (Plus (union is_ascii_alpha is_space))].

(** Areas?[:\-]\s*([A-Za-z0-9,\s\/\-]+) *)
Definition area_re : re :=
  Seq [lit "Area"; Opt (Chr (one 115)); Chr (any_of (cp ":-")); Star is_space;
       Grp 1 (Plus (union is_ascii_alpha
                      (union is_ascii_digit
                         (union (any_of (cp ",/-")) is_space))))].

(** The test of the loop: the text of the block announces a notice. *)
Definition is_notice_title (title : str) : bool :=
  contains (cp "Power Maintenance Notice") title
  || contains (cp "SPECIAL POWER SUPPLY INTERRUPTION") (upper title).

(** [[p.strip() for p in title.split('-') if p.strip()]] *)
Definition hyphen_parts (title : str) : list str :=
  filter truthy (map strip (split_on 45 title)).

(** The region: the text after "Region:" if it has any, else the second of
    the parts between hyphens if there are two, else nothing. *)
Definition region_of (title : str) : str :=
  let region :=
    match search region_re title with
    | Some m => normalize (group_text 1 m)
    | None => []
    end in
  if truthy region then region
  else match hyphen_parts title with
       | _ :: second :: _ => second
       | _ => []
       end.

(** The area: the text after "Area:" or "Areas:" if it has any, else the
    placeholder. *)
Definition area_of (title : str) : str :=
  let area :=
    match search area_re title with
    | Some m => normalize (group_text 1 m)
    | None => []
    end in
  if truthy area then area else cp "Planned maintenance".

(** What the earlier fetcher observes of the world outside it. *)
Record world : Type := mk_world
  { (* requests.get(url, timeout=30), raise_for_status(), resp.text *)
    w_requests_get : str -> outcome str;
    (* [b.get_text(" ") for b in BeautifulSoup(html, 'html.parser').find_all(['article', 'div'])] *)
    w_soup_blocks : str -> outcome (list str);
    (* datetime.strptime(text, format); None stands for the exception *)
    w_strptime : str -> str -> option datetime;
    (* the successive values of datetime.utcnow() *)
    w_utcnow : nat -> datetime;
    (* open(path, "w", encoding="utf-8") and json.dump(data, f, ...) *)
    w_write_file : str -> str -> outcome unit }.

Inductive event : Type :=
| Request (url : str)
| Stdout (line : str)
| FileWrite (path payload : str).

Local Open Scope monad_scope.

(** The dict appended for a block whose text is [title], at the clock
    reading [now]. *)
Definition item_of (w : world) (now : datetime) (title : str)
  : Fetcher.OutageNotice :=
  let times := parse_datetime_range (w_strptime w) title in
  {| Fetcher.id := take 120 (normalize title);
     Fetcher.region := region_of title;
     Fetcher.area := area_of title;
     Fetcher.startTime := or_empty (fst times);
     Fetcher.endTime := or_empty (snd times);
     Fetcher.sourceUrl := SOURCE_URL;
     Fetcher.createdAt := isoformat now ++ cp "Z" |}.

(** The loop over the blocks of the page. *)
Fixpoint collect (w : world) (blocks : list str)
  : M event (list Fetcher.OutageNotice) :=
  match blocks with
  | [] => ret []
  | block :: blocks' =>
      let title := normalize block in
      if truthy title && is_notice_title title then
        now <- read_clock (w_utcnow w) ;;
        items <- collect w blocks' ;;
        ret (item_of w now title :: items)
      else collect w blocks'
  end.

(** The last loop of [fetch]: of the items with one id the first is kept. *)
Fixpoint keep_first (seen : list str) (items : list Fetcher.OutageNotice)
  : list Fetcher.OutageNotice :=
  match items with
  | [] => []
  | it :: rest =>
      if existsb (str_eqb (Fetcher.id it)) seen then keep_first seen rest
      else it :: keep_first (Fetcher.id it :: seen) rest
  end.

(** [fetch()] *)
Definition fetch (w : world) : M event (list Fetcher.OutageNotice) :=
  emit (Request SOURCE_URL) ;;;
  html <- call (w_requests_get w SOURCE_URL) ;;
  blocks <- call (w_soup_blocks w html) ;;
  items <- collect w blocks ;;
  ret (keep_first [] items).

(** The script under [if __name__ == "__main__"], for [argv] the arguments
    after the name of the script. *)
Definition script (w : world) (argv : list str) : M event Z :=
  let out_path := match argv with
                  | path :: _ => path
                  | [] => cp "planned_outages.json"
                  end in
  data <- fetch w ;;
  let payload := Fetcher.json_dumps data in
  call (w_write_file w out_path payload) ;;;
  emit (FileWrite out_path payload) ;;;
  emit (Stdout (cp "Wrote " ++ decimal (List.length data) ++ cp " records to "
                ++ out_path)) ;;;
  ret 0%Z.

Definition run (w : world) (argv : list str) : Z * list event :=
  let (r, s) := script w argv start in (exit_status r, trace s).

(** The first item of [items] with the id [k], if there is one. *)
Definition first_with_id (k : str) (items : list Fetcher.OutageNotice)
  : option Fetcher.OutageNotice :=
  find (fun it => str_eqb (Fetcher.id it) k) items.

(** A time field of a record: empty, or an ISO 8601 date and time. *)
Definition iso_or_empty (t : str) : bool :=
  match t with
  | [] => true
  | _ => is_iso8601 t
  end.

(** The shape of the records of [fetch]: an id of 1 to 120 characters, text
    fields without runs of white space, an area, times in ISO 8601 where
    there are any, the address of the page, and as creation time a reading
    of the clock in ISO 8601 followed by Z. *)
Definition is_scraped_record (w : world) (r : Fetcher.OutageNotice) : Prop :=
  truthy (Fetcher.id r) = true
  /\ (List.length (Fetcher.id r) <= 120)%nat
  /\ single_spaced true (Fetcher.id r) = true
  /\ is_normalized (Fetcher.region r) = true
  /\ truthy (Fetcher.area r) = true
  /\ is_normalized (Fetcher.area r) = true
  /\ iso_or_empty (Fetcher.startTime r) = true
  /\ iso_or_empty (Fetcher.endTime r) = true
  /\ Fetcher.sourceUrl r = SOURCE_URL
  /\ is_iso8601 (Fetcher.createdAt r) = true
  /\ exists n, Fetcher.createdAt r = isoformat (w_utcnow w n) ++ cp "Z".

(** The path of the file of a run: the first argument, or the default. *)
Definition out_path_of (argv : list str) : str :=
  match argv with
  | path :: _ => path
  | [] => cp "planned_outages.json"
  end.

(** The events of a run that wrote [data]. *)
Definition events_of_success (argv : list str) (data : list Fetcher.OutageNotice)
  : list event :=
  [ Request SOURCE_URL;
    FileWrite (out_path_of argv) (Fetcher.json_dumps data);
    Stdout (cp "Wrote " ++ decimal (List.length data) ++ cp " records to "
            ++ out_path_of argv) ].

End LegacyFetcher.

(* ------------------------------------------------------------------ *)
(** ** The trainer: services/prediction/train_from_parquet.py *)

Module Trainer.

Local Open Scope monad_scope.

Inductive event : Type :=
| Load (path : str)
| Train
| Save (dir : str)
| Stdout (line : str).

Section Pipeline.

(** The values handed from step to step: the arrays of
    [load_and_preprocess_data], and the model, scalers and metrics of
    [train_model]. *)
Variable Data : Type.
Variable Trained : Type.

(** The three steps, each of which returns or raises. *)
Record world : Type := mk_world
  { w_load_and_preprocess_data : str -> outcome Data;
    w_train_model : Data -> outcome Trained;
    w_save_model_and_artifacts : Trained -> str -> outcome unit }.

(** The arguments that [main] declares. *)
Definition arguments : list argument :=
  [ mk_argument (cp "input") false true TStr VNone;
    mk_argument (cp "output") false true TStr VNone ].

(** The body of the [try] block. *)
Definition pipeline (w : world) (input output : str) : M event unit :=
  emit (Load input) ;;;
  data <- call (w_load_and_preprocess_data w input) ;;
  emit Train ;;;
  trained <- call (w_train_model w data) ;;
  emit (Save output) ;;;
  call (w_save_model_and_artifacts w trained output) ;;;
  emit (Stdout (cp "Training completed successfully!")).

(** [main()], on the command line [argv]. *)
Definition main (w : world) (argv : list token) : M event Z :=
  match parse_args arguments argv with
  | Raise e => raise e
  | Ok args =>
      try_except
        (pipeline w (attr_str args "input") (attr_str args "output"))
        (fun e =>
           emit (Stdout (cp "Training failed: " ++ e)) ;;;
           raise (SystemExit 1)) ;;;
      ret 0%Z
  end.

(** The process: [main()] under [if __name__ == '__main__']. *)
Definition run (w : world) (argv : list token) : Z * list event :=
  let (r, s) := main w argv start in (exit_status r, trace s).


End Pipeline.

End Trainer.

(* ------------------------------------------------------------------ *)
(** ** The sequence trainer: src/services/prediction/train_from_parquet.py *)

Module SeqTrainer.

Local Open Scope monad_scope.

Inductive event : Type :=
| Pipeline (input_path output_dir : str) (sequence_length : Z).

(** The arguments declared under [if __name__ == '__main__']. *)
Definition arguments : list argument :=
  [ mk_argument (cp "input") false true TStr VNone;
    mk_argument (cp "output") false false TStr (VStr (cp "./models"));
    mk_argument (cp "sequence_length") false false TInt (VInt 24) ].

Definition attr_int (ns : namespace) (name : string) : Z :=
  match attr ns name with
  | VInt n => n
  | _ => 0%Z
  end.

(** The script, for [main_body] the body of
    [main(input_path, output_dir, sequence_length)], which has no handler of
    its own. *)
Definition script (main_body : str -> str -> Z -> outcome unit)
    (argv : list token) : M event Z :=
  match parse_args arguments argv with
  | Raise e => raise e
  | Ok args =>
      let input := attr_str args "input" in
      let output := attr_str args "output" in
      let sequence_length := attr_int args "sequence_length" in
      emit (Pipeline input output sequence_length) ;;;
      call (main_body input output sequence_length) ;;;
      ret 0%Z
  end.

Definition run (main_body : str -> str -> Z -> outcome unit)
    (argv : list token) : Z * list event :=
  let (r, s) := script main_body argv start in (exit_status r, trace s).

End SeqTrainer.

(* ------------------------------------------------------------------ *)
(** ** Sample values for the examples *)

Module Samples.

(** A stand-in for the SHA-1 digest in examples: the text itself.  None of
    the examples depends on the digest. *)
Definition sample_digest : str -> str := fun text => text.

(** 12 June 2025, 08:30:15.250000 *)
Definition sample_now : datetime :=
  mk_datetime 2025 6 12 8 30 15 250000 eq_refl eq_refl.

Definition sample_pdf_url : str := cp "https://www.kplc.co.ke/notice.pdf".

(** A bulletin with two region blocks. *)
Definition sample_bulletin : str :=
  cp "NAIROBI REGION" ++ [10]
  ++ cp "AREA: PARTS OF KILIMANI" ++ [10]
  ++ cp "DATE: Sunday 15.06.2025 TIME: 9.00 A.M. - 5.00 P.M." ++ [10]
  ++ cp "Argwings Kodhek Rd, Ring Rd" ++ [10]
  ++ [10]
  ++ cp "COAST REGION" ++ [13; 10]
  ++ cp "TIME: 8.30 A.M. " ++ [8211] ++ cp " 4.30 P.M.".

(** A text without any marker. *)
Definition sample_plain : str :=
  cp "  Interruption of   supply" ++ [10] ++ cp "see the press".

(** A world in which the site cannot be reached: the request fails, the
    HTML parser finds nothing in the empty page, PDFs cannot be fetched, and
    files can be written. *)
Definition unreachable_world : Fetcher.world :=
  Fetcher.mk_world None sample_digest (fun _ => sample_now)
    (fun _ => Fails (cp "<urlopen error timed out>"))
    true
    (fun _ => Returns [])
    (fun _ => Returns [])
    (fun _ => Fails (cp "<urlopen error timed out>"))
    (fun _ => Fails (cp "No module named 'pdfminer'"))
    (fun _ => Fails (cp "No module named 'PyPDF2'"))
    (fun _ _ => Returns tt).

(** The same world, but with an HTML parser that rejects every page. *)
Definition rejecting_parser_world : Fetcher.world :=
  Fetcher.mk_world None sample_digest (fun _ => sample_now)
    (fun _ => Returns (cp "<![foo]>"))
    true
    (fun _ => Fails (cp "unknown status keyword 'foo' in marked section"))
    (fun _ => Fails (cp "unknown status keyword 'foo' in marked section"))
    (fun _ => Fails (cp "<urlopen error timed out>"))
    (fun _ => Fails (cp "No module named 'pdfminer'"))
    (fun _ => Fails (cp "No module named 'PyPDF2'"))
    (fun _ _ => Returns tt).

(** A record with the given id, region and creation time. *)
Definition sample_notice (i r c : string) : Fetcher.OutageNotice :=
  Fetcher.mk_notice (cp i) (cp r) [] [] [] [] (cp c).

Definition sample_output : str := cp "models/planned_outages.json".

(** Twenty links to PDFs, and a world whose page has them while no PDF can
    be fetched. *)
Definition twenty_links : list str :=
  map (fun n => cp "https://www.kplc.co.ke/files/" ++ decimal n ++ cp ".pdf")
      (seq 1 20).

Definition twenty_links_world : Fetcher.world :=
  Fetcher.mk_world None sample_digest (fun _ => sample_now)
    (fun _ => Returns (cp "<html>...</html>"))
    true
    (fun _ => Returns twenty_links)
    (fun _ => Returns [])
    (fun _ => Fails (cp "HTTP Error 404: Not Found"))
    (fun _ => Fails (cp "No module named 'pdfminer'"))
    (fun _ => Fails (cp "No module named 'PyPDF2'"))
    (fun _ _ => Returns tt).

(** A trainer whose three steps all succeed, and one whose training step
    raises. *)
Definition healthy_trainer : Trainer.world unit unit :=
  Trainer.mk_world (fun _ => Returns tt) (fun _ => Returns tt)
    (fun _ _ => Returns tt).


Definition sample_parquet : str := cp "data/outages.parquet".
Definition sample_model_dir : str := cp "public/models".

(** The text of a notice, as a page of the company has it. *)
Definition sample_title : str :=
  cp "Power Maintenance Notice - Nairobi - Areas: Karen, Langata 12.06.2025 9:00 AM - 5:00 PM".

(** 12 June 2025, 09:00 *)
Definition sample_start : datetime :=
  mk_datetime 2025 6 12 9 0 0 0 eq_refl eq_refl.

(** A world for the earlier fetcher: the page has the notice in a block and
    again, differently spaced, in a block inside it, beside a block of
    another kind; [strptime] knows the start time of the notice. *)
Definition sample_page_world : LegacyFetcher.world :=
  LegacyFetcher.mk_world
    (fun _ => Returns (cp "<html>...</html>"))
    (fun _ => Returns [sample_title ++ [10] ++ cp " Contact  us";
                       [32; 32] ++ sample_title ++ [10] ++ cp "Contact us";
                       cp "Contact us"])
    (fun text format =>
       if str_eqb text (cp "12/06/2025 9:00 AM")
          && str_eqb format (cp "%d/%m/%Y %I:%M %p")
       then Some sample_start else None)
    (fun _ => sample_now)
    (fun _ _ => Returns tt).

(** The same page when the request for it is refused. *)
Definition refused_page_world : LegacyFetcher.world :=
  LegacyFetcher.mk_world
    (fun _ => Fails (cp "403 Client Error: Forbidden for url"))
    (fun _ => Returns [])
    (fun _ _ => None)
    (fun _ => sample_now)
    (fun _ _ => Returns tt).

(** A world whose HTML parser rejects one page, which is not the page that
    the site serves. *)
Definition picky_parser_world : Fetcher.world :=
  Fetcher.mk_world None sample_digest (fun _ => sample_now)
    (fun _ => Returns (cp "<html>...</html>"))
    true
    (fun html =>
       if str_eqb html (cp "<![foo]>")
       then Fails (cp "unknown status keyword 'foo' in marked section")
       else Returns [])
    (fun _ => Returns [])
    (fun _ => Fails (cp "<urlopen error timed out>"))
    (fun _ => Fails (cp "No module named 'pdfminer'"))
    (fun _ => Fails (cp "No module named 'PyPDF2'"))
    (fun _ _ => Returns tt).

End Samples.
Import Samples.

(* ================================================================== *)
(** * Properties *)

(* ------------------------------------------------------------------ *)
(** ** Facts about text *)

Module TextFacts.

Lemma truthy_false (s : str) : truthy s = false -> s = [].
Proof. destruct s; simpl; congruence. Qed.

Lemma truthy_true (s : str) : truthy s = true <-> s <> [].
Proof. destruct s; simpl; split; congruence. Qed.

Lemma str_eqb_eq (a b : str) : str_eqb a b = true <-> a = b.
Proof.
  revert b. induction a as [|x a IH]; destruct b as [|y b]; simpl;
    try (split; congruence).
  rewrite andb_true_iff, N.eqb_eq, IH. split.
  - intros [-> ->]. reflexivity.
  - intros H. injection H. auto.
Qed.

Lemma str_eqb_refl (a : str) : str_eqb a a = true.
Proof. apply str_eqb_eq. reflexivity. Qed.

Lemma str_eqb_neq (a b : str) : str_eqb a b = false <-> a <> b.
Proof.
  rewrite <- str_eqb_eq. destruct (str_eqb a b); split; congruence.
Qed.

(** Only the empty text has no line. *)
Lemma splitlines_nil (s : str) : splitlines s = [] <-> s = [].
Proof.
  destruct s as [|c s]; simpl; [tauto|].
  split; [|discriminate].
  destruct (is_linebreak c); [discriminate|].
  destruct (splitlines s); discriminate.
Qed.

Lemma str_ltb_irrefl (a : str) : str_ltb a a = false.
Proof.
  induction a as [|x a IH]; simpl; auto.
  rewrite N.ltb_irrefl, N.eqb_refl, IH. reflexivity.
Qed.

Lemma str_ltb_asym (a b : str) : str_ltb a b = true -> str_ltb b a = false.
Proof.
  revert b. induction a as [|x a IH]; destruct b as [|y b]; simpl; auto;
    try discriminate.
  rewrite orb_true_iff, andb_true_iff, N.ltb_lt, N.eqb_eq.
  intros [H | [-> H]].
  - apply orb_false_iff. split.
    + apply N.ltb_ge. lia.
    + apply andb_false_iff. left. apply N.eqb_neq. lia.
  - rewrite N.ltb_irrefl, N.eqb_refl. simpl. auto.
Qed.

Lemma str_ltb_trans (a b c : str) :
  str_ltb a b = true -> str_ltb b c = true -> str_ltb a c = true.
Proof.
  revert b c. induction a as [|x a IH]; destruct b as [|y b];
    destruct c as [|z c]; simpl; auto; try discriminate.
  rewrite !orb_true_iff, !andb_true_iff, !N.ltb_lt, !N.eqb_eq.
  intros [H1 | [-> H1]] [H2 | [-> H2]].
  - left. lia.
  - left. lia.
  - left. lia.
  - right. split; [reflexivity|]. eapply IH; eauto.
Qed.

(** Two texts are equal or one is below the other. *)
Lemma str_ltb_total (a b : str) :
  str_ltb a b = false -> str_ltb b a = false -> a = b.
Proof.
  revert b. induction a as [|x a IH]; destruct b as [|y b]; simpl; auto;
    try discriminate.
  rewrite !orb_false_iff, !andb_false_iff, !N.ltb_ge, !N.eqb_neq.
  intros [H1 H1'] [H2 H2'].
  assert (x = y) by lia. subst y. f_equal.
  apply IH.
  - destruct H1'; [congruence | assumption].
  - destruct H2'; [congruence | assumption].
Qed.

Lemma str_leb_refl (a : str) : str_leb a a = true.
Proof. unfold str_leb. rewrite str_ltb_irrefl. reflexivity. Qed.

Lemma str_leb_total (a b : str) : str_leb a b = false -> str_leb b a = true.
Proof.
  unfold str_leb. rewrite negb_false_iff, negb_true_iff. apply str_ltb_asym.
Qed.

Lemma str_leb_trans (a b c : str) :
  str_leb a b = true -> str_leb b c = true -> str_leb a c = true.
Proof.
  unfold str_leb. rewrite !negb_true_iff. intros Hba Hcb.
  destruct (str_ltb c a) eqn:Hca; [|reflexivity].
  destruct (str_ltb a b) eqn:Hab.
  - rewrite (str_ltb_trans _ _ _ Hca Hab) in Hcb. discriminate.
  - assert (a = b) by (apply str_ltb_total; assumption). subst b. congruence.
Qed.

End TextFacts.
Import TextFacts.

(* ------------------------------------------------------------------ *)
(** ** Facts about the matcher *)

Module ReFacts.

Lemma captured_cons (i j : nat) (g : str) (c : caps) :
  captured i c = true -> captured i ((j, g) :: c) = true.
Proof.
  unfold captured. simpl. destruct (Nat.eqb i j); auto.
Qed.

Lemma captured_here (i : nat) (g : str) (c : caps) :
  captured i ((i, g) :: c) = true.
Proof.
  unfold captured. simpl. rewrite Nat.eqb_refl. reflexivity.
Qed.

(** A successful run ends in a successful call of its continuation. *)
Lemma star_cont (T : Type) (p : N -> bool) (s : str) :
  forall pos c (k : cont T) t,
    star p pos s c k = Some t ->
    exists pos1 s1, k pos1 s1 c = Some t.
Proof.
  induction s as [|x s IH]; simpl; intros pos c k t H.
  - eauto.
  - destruct (p x); [|eauto].
    destruct (star p (S pos) s c k) eqn:E.
    + injection H as <-. eapply IH; eauto.
    + eauto.
Qed.

(** The continuation is then called with the groups captured before, and
    with every group that takes part in all matches of the pattern. *)
Lemma exec_cont (T : Type) (i : nat) (r : re) :
  forall pos s c (k : cont T) t,
    exec r pos s c k = Some t ->
    exists pos1 s1 c1,
      k pos1 s1 c1 = Some t
      /\ (captured i c = true -> captured i c1 = true)
      /\ (has_group i r = true -> captured i c1 = true).
Proof.
  induction r as [| |p|a IHa b IHb|a IHa b IHb|p|j a IHa];
    simpl; intros pos s c k t H.
  - exists pos, s, c. intuition discriminate.
  - destruct (Nat.eqb pos 0); [|discriminate].
    exists pos, s, c. intuition discriminate.
  - destruct s as [|x s]; [discriminate|].
    destruct (p x); [|discriminate].
    exists (S pos), s, c. intuition discriminate.
  - apply IHa in H. destruct H as (pos1 & s1 & c1 & H & Ha1 & Ha2).
    apply IHb in H. destruct H as (pos2 & s2 & c2 & H & Hb1 & Hb2).
    exists pos2, s2, c2. split; [exact H|]. split; [auto|].
    intros E. apply orb_true_iff in E. destruct E; auto.
  - destruct (exec a pos s c k) eqn:E.
    + injection H as <-. apply IHa in E.
      destruct E as (pos1 & s1 & c1 & H & Ha1 & Ha2).
      exists pos1, s1, c1. split; [exact H|]. split; [auto|].
      intros X. apply andb_true_iff in X. destruct X; auto.
    + apply IHb in H. destruct H as (pos1 & s1 & c1 & H & Hb1 & Hb2).
      exists pos1, s1, c1. split; [exact H|]. split; [auto|].
      intros X. apply andb_true_iff in X. destruct X; auto.
  - apply star_cont in H. destruct H as (pos1 & s1 & H).
    exists pos1, s1, c. intuition discriminate.
  - apply IHa in H. destruct H as (pos1 & s1 & c1 & H & Ha1 & Ha2).
    eexists pos1, s1, _. split; [exact H|]. split.
    + intros X. apply captured_cons. auto.
    + intros X. apply orb_true_iff in X. destruct X as [X | X].
      * apply Nat.eqb_eq in X. subst j. apply captured_here.
      * apply captured_cons. auto.
Qed.

Lemma exec_group (i : nat) (r : re) :
  has_group i r = true ->
  forall pos s c m,
    exec r pos s c accept = Some m -> exists g, mgroup i m = Some g.
Proof.
  intros E pos s c m H.
  apply (exec_cont i) in H. destruct H as (pos1 & s1 & c1 & H & _ & Hc).
  unfold accept in H. injection H as <-.
  specialize (Hc E). unfold captured in Hc. unfold mgroup. simpl.
  destruct (group i c1); [eauto | discriminate].
Qed.

Lemma search_from_exec (r : re) (s : str) :
  forall pos m,
    search_from r pos s = Some m ->
    exists pos1 s1, exec r pos1 s1 [] accept = Some m.
Proof.
  induction s as [|x s IH]; simpl; intros pos m H.
  - destruct (exec r pos [] [] accept) eqn:E; [|discriminate].
    injection H as <-. eauto.
  - destruct (exec r pos (x :: s) [] accept) eqn:E.
    + injection H as <-. eauto.
    + eapply IH; eauto.
Qed.

(** When such a pattern is found, its group has a text. *)
Lemma search_group (i : nat) (r : re) (s : str) (m : rmatch) :
  has_group i r = true ->
  search r s = Some m -> exists g, mgroup i m = Some g.
Proof.
  intros E H. apply search_from_exec in H. destruct H as (pos1 & s1 & H).
  eapply exec_group; eauto.
Qed.

End ReFacts.
Import ReFacts.

(* ------------------------------------------------------------------ *)
(** ** The record extractor *)

Module ExtractorFacts.
Import Fetcher.

(** In each of the four patterns of the scan the group that the loop reads
    takes part in every match, so [m.group(i)] is never [None] there. *)
Lemma group_of_search :
  forall ln m,
    (search region_re ln = Some m -> mgroup 2 m = Some (group_text 2 m)) /\
    (search area_re ln = Some m -> mgroup 1 m = Some (group_text 1 m)) /\
    (search date_re ln = Some m -> mgroup 1 m = Some (group_text 1 m)) /\
    (search time_re ln = Some m -> mgroup 1 m = Some (group_text 1 m)).
Proof.
  intros ln m.
  repeat split; intros H;
    [ apply (@search_group 2) in H | apply (@search_group 1) in H
    | apply (@search_group 1) in H | apply (@search_group 1) in H ];
    try reflexivity;
    destruct H as [g H]; unfold group_text; rewrite H; reflexivity.
Qed.

Section WithDigest.
Variable sha1_hexdigest : str -> str.
Variable now_iso : str.
Variable pdf_url : str.

Local Abbreviation flush := (flush sha1_hexdigest now_iso pdf_url).
Local Abbreviation scan_line := (scan_line sha1_hexdigest now_iso pdf_url).
Local Abbreviation scan_step := (scan_step sha1_hexdigest now_iso pdf_url).
Local Abbreviation scan_run := (scan_run sha1_hexdigest now_iso pdf_url).

Lemma scan_has_field_flush_test (st : scan) :
  truthy (s_area st) || truthy (s_start st) || truthy (s_end st)
  || truthy (s_region st) = scan_has_field st.
Proof.
  unfold scan_has_field.
  destruct (truthy (s_area st)), (truthy (s_start st)), (truthy (s_end st)),
    (truthy (s_region st)); reflexivity.
Qed.

Lemma scan_no_field (st : scan) :
  scan_has_field st = false ->
  s_region st = [] /\ s_area st = [] /\ s_start st = [] /\ s_end st = [].
Proof.
  unfold scan_has_field. rewrite !orb_false_iff.
  intros [[[H1 H2] H3] H4]. auto using truthy_false.
Qed.

(** After [flush()] the four fields are empty, whether or not a record was
    appended. *)
Lemma flush_fields (st : scan) :
  s_region (flush st) = [] /\ s_area (flush st) = [] /\
  s_start (flush st) = [] /\ s_end (flush st) = [].
Proof.
  unfold Fetcher.flush. rewrite scan_has_field_flush_test.
  destruct (scan_has_field st) eqn:E; simpl; auto using scan_no_field.
Qed.

(** What [flush()] leaves in the list of records is what closing the
    record in progress emits. *)
Lemma flush_closes (st : scan) :
  s_outages (flush st) = records_after_close sha1_hexdigest now_iso pdf_url st.
Proof.
  unfold Fetcher.flush, records_after_close.
  rewrite scan_has_field_flush_test.
  destruct (scan_has_field st); reflexivity.
Qed.

Lemma scan_line_step (st : scan) (ln : str) : scan_step st ln (scan_line st ln).
Proof.
  unfold Fetcher.scan_line.
  destruct ln as [|c ln]; simpl; [constructor; reflexivity|].
  set (l := c :: ln). assert (Hl : l <> []) by discriminate.
  destruct (search region_re l) as [m|] eqn:Er.
  { destruct (flush_fields st) as (_ & -> & -> & ->).
    rewrite flush_closes. eapply step_region; eauto. }
  destruct (search area_re l) as [m|] eqn:Ea.
  { eapply step_area; eauto. }
  destruct (search date_re l) as [m|] eqn:Ed.
  { eapply step_date; eauto. }
  destruct (search time_re l) as [m|] eqn:Et.
  { eapply step_time; eauto. }
  apply step_plain; auto.
Qed.

Lemma scan_step_fun (st st' : scan) (ln : str) :
  scan_step st ln st' -> st' = scan_line st ln.
Proof.
  intros H. unfold Fetcher.scan_line.
  destruct H as [-> | m Hl Hr | m Hl Hr Ha | m Hl Hr Ha Hd
                 | m Hl Hr Ha Hd Ht | Hl Hr Ha Hd Ht]; simpl; auto;
    (destruct ln; [congruence|]); simpl;
    rewrite ?Hr, ?Ha, ?Hd, ?Ht; auto.
  destruct (flush_fields st) as (_ & -> & -> & ->).
  rewrite flush_closes. reflexivity.
Qed.

Lemma scan_run_fold (lines : list str) :
  forall st, scan_run lines st (fold_left scan_line lines st).
Proof.
  induction lines as [|ln lines IH]; simpl; intros st.
  - constructor.
  - econstructor; [apply scan_line_step | apply IH].
Qed.

Lemma scan_run_fun (lines : list str) :
  forall st st', scan_run lines st st' -> st' = fold_left scan_line lines st.
Proof.
  induction lines as [|ln lines IH]; simpl; intros st st' H;
    inversion H; subst; auto.
  match goal with
  | Hs : scan_step _ _ _ |- _ => apply scan_step_fun in Hs; subst
  end.
  apply IH. assumption.
Qed.

(** Records already emitted are never changed by a later line. *)
Lemma scan_line_outages (st : scan) (ln : str) :
  exists more, s_outages (scan_line st ln) = s_outages st ++ more.
Proof.
  unfold Fetcher.scan_line.
  destruct (negb (truthy ln)); [exists []; symmetry; apply app_nil_r|].
  destruct (search region_re ln).
  { simpl. unfold Fetcher.flush.
    destruct (_ || _); simpl; eauto. exists []; symmetry; apply app_nil_r. }
  destruct (search area_re ln); [exists []; symmetry; apply app_nil_r|].
  destruct (search date_re ln); [exists []; symmetry; apply app_nil_r|].
  destruct (search time_re ln); exists []; symmetry; apply app_nil_r.
Qed.

Lemma flush_all_have_field (st : scan) :
  all_have_field st -> all_have_field (flush st).
Proof.
  unfold all_have_field, Fetcher.flush. intros H.
  rewrite scan_has_field_flush_test.
  destruct (scan_has_field st) eqn:E; simpl; [|assumption].
  apply Forall_app. split; [assumption|].
  constructor; [exact E | constructor].
Qed.

Lemma scan_line_all_have_field (st : scan) (ln : str) :
  all_have_field st -> all_have_field (scan_line st ln).
Proof.
  intros H. unfold Fetcher.scan_line.
  destruct (negb (truthy ln)); auto.
  destruct (search region_re ln).
  { apply flush_all_have_field in H. exact H. }
  destruct (search area_re ln); auto.
  destruct (search date_re ln); auto.
  destruct (search time_re ln); auto.
Qed.

Lemma fold_all_have_field (lines : list str) :
  forall st, all_have_field st -> all_have_field (fold_left scan_line lines st).
Proof.
  induction lines as [|ln lines IH]; simpl; intros st H; auto.
  apply IH. apply scan_line_all_have_field. assumption.
Qed.

End WithDigest.
End ExtractorFacts.

Module ExtractorClaims.
Import Fetcher ExtractorFacts.

(** C1.  For every input text and source URL, [parse_pdf_for_outages] makes
    one pass, first line to last, over the normalized lines: there is exactly
    one run of the scan relation over them from the empty state, the state
    of the loop of the code after the last line, fields in progress and
    records alike, is the final state of that run, and the records returned
    are those of that state once the record in progress is closed (or the
    fallback record, when there is none).  In the relation a line is tried
    against the region marker first, then the area marker, then the date,
    then the time range; a region line closes the record in progress, which
    is emitted with its four fields if one of them is filled, and opens a
    new one whose only field is the region found on the line; an area, date
    or time-range line only fills its own field of the record in progress
    and emits nothing. *)
Theorem scan_is_single_forward_pass :
  forall (sha1_hexdigest : str -> str) (now : datetime) (text pdf_url : str),
    let now_iso := now_iso_of now in
    let lines := normalized_lines text in
    exists final : scan,
      scan_run sha1_hexdigest now_iso pdf_url lines scan_init final
      /\ (forall final',
             scan_run sha1_hexdigest now_iso pdf_url lines scan_init final' ->
             final' = final)
      /\ fold_left (scan_line sha1_hexdigest now_iso pdf_url) lines scan_init
         = final
      /\ structured_scan sha1_hexdigest now_iso pdf_url lines
         = records_after_close sha1_hexdigest now_iso pdf_url final
      /\ parse_pdf_for_outages sha1_hexdigest now text pdf_url
         = match records_after_close sha1_hexdigest now_iso pdf_url final,
                 lines with
           | [], first_line :: _ =>
               [fallback_notice sha1_hexdigest now_iso pdf_url first_line]
           | outages, _ => outages
           end.
Proof.
  intros sha now text pdf_url now_iso lines.
  exists (fold_left (scan_line sha now_iso pdf_url) lines scan_init).
  split; [apply scan_run_fold|].
  split; [intros final' H; apply scan_run_fun; exact H|].
  split; [reflexivity|].
  unfold parse_pdf_for_outages, scan_with_fallback, structured_scan.
  fold now_iso. fold lines.
  rewrite flush_closes. split; reflexivity.
Qed.

(** C2.  A flush appends a record exactly when one of the four fields in
    progress (region, area, start, end) is not empty, and otherwise leaves
    the state as it is; so every record that the structured scan of any text
    emits has at least one of these four fields filled. *)
Theorem flush_emits_only_filled_records :
  forall (sha1_hexdigest : str -> str) (now : datetime) (text pdf_url : str),
    let now_iso := now_iso_of now in
    (forall st : scan,
        flush sha1_hexdigest now_iso pdf_url st
        = if scan_has_field st
          then mk_scan [] [] [] []
                 (s_outages st
                  ++ [in_progress_notice sha1_hexdigest now_iso pdf_url st])
          else st)
    /\ Forall (fun r => notice_has_field r = true)
         (structured_scan sha1_hexdigest now_iso pdf_url (normalized_lines text)).
Proof.
  intros sha now text pdf_url now_iso. split.
  - intros st. unfold flush. rewrite scan_has_field_flush_test. reflexivity.
  - unfold structured_scan.
    apply flush_all_have_field. apply fold_all_have_field.
    constructor.
Qed.

(** C3.  When the structured scan of a text yields no record: for the empty
    text [parse_pdf_for_outages] returns no record, and for a text that is
    not empty it returns exactly one record, the fallback one, whose region
    is the first 120 characters of the first normalized line and whose
    startTime and endTime are empty. *)
Theorem fallback_when_scan_is_empty :
  forall (sha1_hexdigest : str -> str) (now : datetime) (text pdf_url : str),
    structured_scan sha1_hexdigest (now_iso_of now) pdf_url
      (normalized_lines text) = [] ->
    (text = [] -> parse_pdf_for_outages sha1_hexdigest now text pdf_url = [])
    /\ (text <> [] ->
        exists first rest r,
          splitlines text = first :: rest
          /\ parse_pdf_for_outages sha1_hexdigest now text pdf_url = [r]
          /\ region r = take 120 (normalize_space first)
          /\ area r = cp "Planned maintenance"
          /\ startTime r = [] /\ endTime r = []
          /\ sourceUrl r = pdf_url).
Proof.
  intros sha now text pdf_url Hscan.
  unfold parse_pdf_for_outages, scan_with_fallback. rewrite Hscan.
  split.
  - intros ->. reflexivity.
  - intros Hne. unfold normalized_lines.
    destruct (splitlines text) as [|first rest] eqn:E.
    + apply splitlines_nil in E. contradiction.
    + simpl. eexists first, rest, _. repeat split.
Qed.

(** C3 at the sample text without markers. *)
Lemma fallback_when_scan_is_empty_witness :
  structured_scan sample_digest (now_iso_of sample_now) sample_pdf_url
    (normalized_lines sample_plain) = []
  /\ exists first rest r,
       splitlines sample_plain = first :: rest
       /\ parse_pdf_for_outages sample_digest sample_now sample_plain
            sample_pdf_url = [r]
       /\ region r = take 120 (normalize_space first)
       /\ area r = cp "Planned maintenance"
       /\ startTime r = [] /\ endTime r = []
       /\ sourceUrl r = sample_pdf_url.
Proof.
  assert (H : structured_scan sample_digest (now_iso_of sample_now)
                sample_pdf_url (normalized_lines sample_plain) = [])
    by (vm_compute; reflexivity).
  assert (Hne : sample_plain <> []) by discriminate.
  exact (conj H (proj2 (fallback_when_scan_is_empty sample_digest sample_now
                          sample_plain sample_pdf_url H) Hne)).
Defined.

(** The fallback record of the sample text without markers. *)
Example fallback_of_sample_plain :
  parse_pdf_for_outages sample_digest sample_now sample_plain sample_pdf_url
  = [ {| id := take 16 sample_pdf_url;
         region := cp "Interruption of supply";
         area := cp "Planned maintenance";
         startTime := []; endTime := [];
         sourceUrl := sample_pdf_url;
         createdAt := cp "2025-06-12T08:30:15Z" |} ].
Proof. vm_compute. reflexivity. Qed.

(** The two records of the sample bulletin.  Its third line carries a date
    and a time range: the date is tried first and the line is then done, so
    the first record has no endTime. *)
Example records_of_sample_bulletin :
  map (fun r => (region r, area r, startTime r, endTime r))
      (parse_pdf_for_outages sample_digest sample_now sample_bulletin
         sample_pdf_url)
  = [ (cp "NAIROBI REGION", cp "PARTS OF KILIMANI", cp "Sunday 15.06.2025", []);
      (cp "COAST REGION", [], [], cp "8.30 A.M. " ++ [8211] ++ cp " 4.30 P.M.") ].
Proof. vm_compute. reflexivity. Qed.

(** No record for the empty text. *)
Example no_record_for_empty_text :
  forall sha1_hexdigest now pdf_url,
    parse_pdf_for_outages sha1_hexdigest now [] pdf_url = [].
Proof. reflexivity. Qed.

End ExtractorClaims.

(* ------------------------------------------------------------------ *)
(** ** Dictionaries and sorting *)

Module PyFacts.

Section Dict.
Variable V : Type.
Implicit Types (d : dict V) (k : str) (v : V).

Lemma dict_get_set_same d k v : dict_get k (dict_set k v d) = Some v.
Proof.
  induction d as [|[k' v'] d IH]; simpl.
  - rewrite str_eqb_refl. reflexivity.
  - destruct (str_eqb k k') eqn:E; simpl.
    + rewrite str_eqb_refl. reflexivity.
    + rewrite E. exact IH.
Qed.

Lemma dict_get_set_other d k k' v :
  k <> k' -> dict_get k' (dict_set k v d) = dict_get k' d.
Proof.
  intros Hne. induction d as [|[k0 v0] d IH]; simpl.
  - apply not_eq_sym in Hne. apply str_eqb_neq in Hne. rewrite Hne. reflexivity.
  - destruct (str_eqb k k0) eqn:E; simpl.
    + apply str_eqb_eq in E. subst k0.
      apply not_eq_sym in Hne. apply str_eqb_neq in Hne. rewrite Hne.
      reflexivity.
    + destruct (str_eqb k' k0); [reflexivity | exact IH].
Qed.

Lemma dict_set_keys d k v k' :
  In k' (map fst (dict_set k v d)) <-> k' = k \/ In k' (map fst d).
Proof.
  induction d as [|[k0 v0] d IH]; simpl.
  - intuition.
  - destruct (str_eqb k k0) eqn:E; simpl.
    + apply str_eqb_eq in E. subst k0. intuition.
    + rewrite IH. intuition.
Qed.

Lemma dict_set_nodup d k v :
  NoDup (map fst d) -> NoDup (map fst (dict_set k v d)).
Proof.
  induction d as [|[k0 v0] d IH]; simpl; intros H.
  - constructor; [simpl; tauto | constructor].
  - inversion H as [|? ? Hnotin Hd]; subst.
    destruct (str_eqb k k0) eqn:E; simpl.
    + apply str_eqb_eq in E. subst k0. constructor; assumption.
    + constructor; [|apply IH; assumption].
      rewrite dict_set_keys. intros [-> | Hin]; [|contradiction].
      rewrite str_eqb_refl in E. discriminate.
Qed.

Lemma dict_get_in d k v : dict_get k d = Some v -> In (k, v) d.
Proof.
  induction d as [|[k0 v0] d IH]; simpl; [discriminate|].
  destruct (str_eqb k k0) eqn:E.
  - apply str_eqb_eq in E. subst k0. intros H. injection H as <-. auto.
  - auto.
Qed.

Lemma dict_in_get d k v :
  NoDup (map fst d) -> In (k, v) d -> dict_get k d = Some v.
Proof.
  induction d as [|[k0 v0] d IH]; simpl; intros Hnd Hin; [contradiction|].
  inversion Hnd as [|? ? Hnotin Hd]; subst.
  destruct Hin as [Heq | Hin].
  - injection Heq as -> ->. rewrite str_eqb_refl. reflexivity.
  - destruct (str_eqb k k0) eqn:E.
    + apply str_eqb_eq in E. subst k0.
      exfalso. apply Hnotin. apply (in_map fst) in Hin. exact Hin.
    + apply IH; assumption.
Qed.

End Dict.

Section Sorted.
Variable A : Type.
Variable key : A -> str.

Local Abbreviation key_ge := (key_ge key).

Lemma insert_desc_perm (x : A) (l : list A) :
  Permutation (insert_desc key x l) (x :: l).
Proof.
  induction l as [|y l IH]; simpl; [reflexivity|].
  destruct (str_leb (key y) (key x)); [reflexivity|].
  rewrite IH. apply perm_swap.
Qed.

Lemma sorted_desc_perm (xs : list A) : Permutation (sorted_desc key xs) xs.
Proof.
  induction xs as [|x xs IH]; simpl; [reflexivity|].
  rewrite insert_desc_perm. constructor. exact IH.
Qed.

Lemma insert_desc_sorted (x : A) (l : list A) :
  StronglySorted key_ge l -> StronglySorted key_ge (insert_desc key x l).
Proof.
  induction l as [|y l IH]; simpl; intros H.
  - constructor; constructor.
  - inversion H as [|? ? Hl Hy]; subst.
    destruct (str_leb (key y) (key x)) eqn:E.
    + constructor; [assumption|].
      constructor; [exact E|].
      eapply Forall_impl; [|exact Hy].
      intros z Hz. unfold key_ge in *. eapply str_leb_trans; eauto.
    + constructor; [apply IH; assumption|].
      eapply Permutation_Forall.
      * symmetry. apply insert_desc_perm.
      * constructor; [|assumption].
        unfold key_ge. apply str_leb_total. exact E.
Qed.

Lemma sorted_desc_sorted (xs : list A) :
  StronglySorted key_ge (sorted_desc key xs).
Proof.
  induction xs as [|x xs IH]; simpl.
  - constructor.
  - apply insert_desc_sorted. exact IH.
Qed.

End Sorted.
End PyFacts.
Import PyFacts.

(* ------------------------------------------------------------------ *)
(** ** The deduplicator and sorter *)

Module MergeFacts.
Import Fetcher.

Lemma last_with_id_app (k : str) (l1 l2 : list OutageNotice) :
  last_with_id k (l1 ++ l2)
  = match last_with_id k l2 with
    | Some r => Some r
    | None => last_with_id k l1
    end.
Proof.
  induction l1 as [|x l1 IH]; simpl.
  - destruct (last_with_id k l2); reflexivity.
  - rewrite IH. destruct (last_with_id k l2); reflexivity.
Qed.

Lemma last_with_id_none (k : str) (l : list OutageNotice) :
  last_with_id k l = None <-> ~ In k (map id l).
Proof.
  induction l as [|x l IH]; simpl; [tauto|].
  destruct (last_with_id k l) as [r|].
  - split; [discriminate|]. intros H. exfalso. apply H. right.
    destruct (in_dec (list_eq_dec N.eq_dec) k (map id l)) as [Hin|Hn]; auto.
    apply IH in Hn. discriminate.
  - destruct (str_eqb (id x) k) eqn:E.
    + apply str_eqb_eq in E. split; [discriminate|]. intros H. tauto.
    + apply str_eqb_neq in E. split; [|reflexivity].
      intros _ [H | H]; [contradiction|]. apply IH in H; auto.
Qed.

(** [last_with_id] finds the occurrence that no record of the same id
    follows. *)
Lemma last_with_id_some (k : str) (l : list OutageNotice) (r : OutageNotice) :
  last_with_id k l = Some r <->
  exists before after,
    l = before ++ r :: after /\ id r = k /\ ~ In k (map id after).
Proof.
  split.
  - induction l as [|x l IH]; simpl; [discriminate|].
    destruct (last_with_id k l) as [r'|] eqn:E.
    + intros H. injection H as ->.
      destruct (IH eq_refl) as (b & a & -> & Hid & Hn).
      exists (x :: b), a. auto.
    + destruct (str_eqb (id x) k) eqn:Ex; [|discriminate].
      intros H. injection H as ->. apply str_eqb_eq in Ex.
      exists [], l. split; [reflexivity|]. split; [assumption|].
      apply last_with_id_none. assumption.
  - intros (b & a & -> & Hid & Hn).
    rewrite last_with_id_app. simpl.
    apply last_with_id_none in Hn. rewrite Hn.
    subst k. rewrite str_eqb_refl. reflexivity.
Qed.

Lemma dedup_loop_get (k : str) (items : list OutageNotice) :
  forall d,
    dict_get k (dedup_loop items d)
    = match last_with_id k items with
      | Some r => Some r
      | None => dict_get k d
      end.
Proof.
  unfold dedup_loop.
  induction items as [|x items IH]; simpl; intros d; [reflexivity|].
  rewrite IH. destruct (last_with_id k items); [reflexivity|].
  destruct (str_eqb (id x) k) eqn:E.
  - apply str_eqb_eq in E. subst k. apply dict_get_set_same.
  - apply str_eqb_neq in E. apply dict_get_set_other. assumption.
Qed.

Lemma dedup_loop_nodup (items : list OutageNotice) :
  forall d, NoDup (map fst d) -> NoDup (map fst (dedup_loop items d)).
Proof.
  unfold dedup_loop.
  induction items as [|x items IH]; simpl; intros d H; [assumption|].
  apply IH. apply dict_set_nodup. assumption.
Qed.

(** Every entry is filed under the id of its record. *)
Lemma dedup_loop_keys (items : list OutageNotice) :
  forall d,
    Forall (fun e => fst e = id (snd e)) d ->
    Forall (fun e => fst e = id (snd e)) (dedup_loop items d).
Proof.
  unfold dedup_loop.
  induction items as [|x items IH]; simpl; intros d H; [assumption|].
  apply IH. clear IH.
  induction d as [|[k v] d IHd]; simpl.
  - constructor; [reflexivity | constructor].
  - inversion H; subst.
    destruct (str_eqb (id x) k); constructor; auto.
Qed.

Lemma dedup_values_in (items : list OutageNotice) (r : OutageNotice) :
  In r (dict_values (dedup_by_id items)) <-> last_with_id (id r) items = Some r.
Proof.
  unfold dict_values, dedup_by_id.
  pose proof (@dedup_loop_nodup items [] (NoDup_nil _)) as Hnd.
  pose proof (@dedup_loop_keys items [] (Forall_nil _)) as Hk.
  pose proof (dedup_loop_get (id r) items []) as Hg. simpl in Hg.
  split.
  - intros Hin. apply in_map_iff in Hin. destruct Hin as ([k v] & Hv & Hin).
    simpl in Hv. subst v.
    rewrite Forall_forall in Hk. pose proof (Hk _ Hin) as Hkey. simpl in Hkey.
    subst k. apply dict_in_get in Hin; [|assumption].
    rewrite Hg in Hin. destruct (last_with_id (id r) items); congruence.
  - intros Hl. rewrite Hl in Hg. apply dict_get_in in Hg.
    apply in_map_iff. exists (id r, r). auto.
Qed.

Lemma dedup_values_nodup (items : list OutageNotice) :
  NoDup (map id (dict_values (dedup_by_id items))).
Proof.
  unfold dict_values, dedup_by_id.
  pose proof (@dedup_loop_nodup items [] (NoDup_nil _)) as Hnd.
  pose proof (@dedup_loop_keys items [] (Forall_nil _)) as Hk.
  rewrite map_map.
  erewrite map_ext_in; [exact Hnd|].
  intros e He. rewrite Forall_forall in Hk. symmetry. apply Hk. exact He.
Qed.

(** C4.  For every list of records, [merge_and_sort] returns a list in which
    no two records share an id; a record is in the result exactly when it is
    the last record of its id in the input (so every id of the input is kept
    once, by its last occurrence); and the result is ordered descending by
    the code-point comparison of [createdAt]. *)
Theorem merge_and_sort_last_wins_descending :
  forall items : list OutageNotice,
    NoDup (map id (merge_and_sort items))
    /\ (forall r,
           In r (merge_and_sort items) <->
           exists before after,
             items = before ++ r :: after /\ ~ In (id r) (map id after))
    /\ StronglySorted created_ge (merge_and_sort items).
Proof.
  intros items. unfold merge_and_sort.
  pose proof (sorted_desc_perm createdAt (dict_values (dedup_by_id items)))
    as Hperm.
  split; [|split].
  - eapply Permutation_NoDup.
    + apply Permutation_map. symmetry. exact Hperm.
    + apply dedup_values_nodup.
  - intros r. split.
    + intros Hin. eapply Permutation_in in Hin; [|exact Hperm].
      apply dedup_values_in in Hin. apply last_with_id_some in Hin.
      destruct Hin as (b & a & -> & _ & Hn). eauto.
    + intros (b & a & -> & Hn).
      eapply Permutation_in; [symmetry; exact Hperm|].
      apply dedup_values_in. apply last_with_id_some. eauto 6.
  - apply sorted_desc_sorted.
Qed.


(** Three records, two of them with the same id: the later one is kept, at
    the place of the first in the dictionary, and the result is descending
    by [createdAt]. *)
Example merge_and_sort_sample :
  merge_and_sort
    [ sample_notice "a" "first" "2025-06-12T08:30:15Z";
      sample_notice "b" "other" "2025-06-12T08:30:16Z";
      sample_notice "a" "second" "2025-06-12T08:30:17Z" ]
  = [ sample_notice "a" "second" "2025-06-12T08:30:17Z";
      sample_notice "b" "other" "2025-06-12T08:30:16Z" ].
Proof. vm_compute. reflexivity. Qed.
End MergeFacts.

(* ------------------------------------------------------------------ *)
(** ** The fetch orchestrator *)

Module OrchestratorFacts.
Import Fetcher.

Local Open Scope nat_scope.
Local Arguments firstn : simpl never.

(** Unfolds the operations of the monad in the goal. *)
Ltac run_monad :=
  unfold bind, try_except, emit, call, ret, raise, read_clock; simpl.

(** Closes a goal [exists x s' evs, run = (Ok x, s') /\ trace s' = trace s ++ evs /\ ...]
    up to its last part, after the run has been computed. *)
Ltac give_run :=
  do 3 eexists; split; [reflexivity|]; split;
  [simpl; rewrite <- ?app_assoc; simpl; reflexivity|]; simpl.

Lemma firstn_length_bound (A : Type) (n : nat) (l : list A) :
  List.length (firstn n l) <= n.
Proof. rewrite length_firstn. apply Nat.le_min_l. Qed.

(** One turn of the loop over the PDFs never raises, fetches its PDF once,
    and hands at most that PDF to the record extractor. *)
Lemma pdf_step_run (w : world) (items : list OutageNotice) (pdf : str)
    (s : state event) :
  exists items' s' evs,
    pdf_step w items pdf s = (Ok items', s')
    /\ trace s' = trace s ++ evs
    /\ Forall (fun e => is_pdf_event e = true) evs
    /\ fetched evs = [pdf]
    /\ incl (extracted evs) [pdf]
    /\ List.length (extracted evs) <= 1.
Proof.
  unfold pdf_step, fetch_pdf_text, run_parse_pdf_for_outages. run_monad.
  destruct (w_urlopen_read w pdf) as [data|msg]; simpl.
  2:{ give_run. repeat split; auto using incl_nil_l. }
  destruct (w_pdfminer_text w data) as [text|msg]; simpl.
  - destruct (truthy (strip text)) eqn:Et; simpl.
    + destruct (truthy text) eqn:Ett; simpl.
      * give_run. repeat split; auto using incl_refl.
      * give_run. repeat split; auto using incl_nil_l.
    + destruct (truthy (pypdf2_text w data text)); simpl.
      * give_run. repeat split; auto using incl_refl.
      * give_run. repeat split; auto using incl_nil_l.
  - destruct (truthy (pypdf2_text w data [])); simpl.
    + give_run. repeat split; auto using incl_refl.
    + give_run. repeat split; auto using incl_nil_l.
Qed.

Lemma fetched_app (a b : list event) : fetched (a ++ b) = fetched a ++ fetched b.
Proof. unfold fetched. apply flat_map_app. Qed.

Lemma extracted_app (a b : list event) :
  extracted (a ++ b) = extracted a ++ extracted b.
Proof. unfold extracted. apply flat_map_app. Qed.

(** The loop never raises; it fetches the PDFs it is given, each once and in
    order, and extracts records from none but these. *)
Lemma pdf_loop_run (w : world) (pdfs : list str) :
  forall (items : list OutageNotice) (s : state event),
  exists items' s' evs,
    pdf_loop w items pdfs s = (Ok items', s')
    /\ trace s' = trace s ++ evs
    /\ Forall (fun e => is_pdf_event e = true) evs
    /\ fetched evs = pdfs
    /\ incl (extracted evs) pdfs
    /\ List.length (extracted evs) <= List.length pdfs.
Proof.
  induction pdfs as [|pdf pdfs IH]; intros items s; simpl.
  - exists items, s, []. rewrite app_nil_r.
    repeat split; auto using incl_nil_l.
  - destruct (pdf_step_run w items pdf s)
      as (items1 & s1 & evs1 & R1 & T1 & F1 & Fe1 & X1 & L1).
    destruct (IH items1 s1)
      as (items2 & s2 & evs2 & R2 & T2 & F2 & Fe2 & X2 & L2).
    exists items2, s2, (evs1 ++ evs2).
    unfold bind. rewrite R1, R2, T2, T1, app_assoc.
    repeat split.
    + apply Forall_app. split; assumption.
    + rewrite fetched_app, Fe1, Fe2. reflexivity.
    + rewrite extracted_app. apply incl_app.
      * intros u Hu. apply X1 in Hu. destruct Hu as [<- | []]. left. reflexivity.
      * intros u Hu. right. apply X2. exact Hu.
    + rewrite extracted_app, length_app. lia.
Qed.

(** The page strategies never raise and touch no PDF; the raw scan of the
    HTML runs exactly when the scan of the page text gave no item. *)
Lemma page_fallback_run (w : world) (html : str) (s : state event) :
  exists items s' evs,
    page_fallback w html s = (Ok items, s')
    /\ trace s' = trace s ++ ListScan :: evs
    /\ Forall (fun e => is_page_event e = true) evs
    /\ match fst (parse_list_section_bs4 w html s) with
       | Ok (_ :: _) => ~ In RegexScan evs
       | _ => In RegexScan evs
       end.
Proof.
  unfold page_fallback, parse_list_section_bs4, run_parse_with_regex.
  run_monad.
  destruct (w_bs4_importable w); simpl.
  2:{ give_run. split; [repeat constructor | auto]. }
  destruct (w_soup_texts w html) as [nodes|msg]; simpl.
  2:{ give_run. split; [repeat constructor | auto]. }
  destruct (map _ (firstn 50 (uniq (filter has_keyword
                                      (map normalize_space nodes)))))
    as [|r rs] eqn:E; simpl.
  - give_run. split; [repeat constructor | auto].
  - give_run. split; [constructor | tauto].
Qed.

(** What [collect_items] does after the link extraction, by the links
    found. *)
Lemma collect_items_cases :
  forall (w : world) (html source : str) (s : state event),
    let (links, s1) := extract_pdf_links_bs4 w html source s in
    match links with
    | Raise e => collect_items w html source s = (Raise e, s1)
    | Ok (link :: more) =>
        exists items s2 evs,
          collect_items w html source s = (Ok items, s2)
          /\ trace s2 = trace s1 ++ evs
          /\ Forall (fun e => is_pdf_event e = true) evs
          /\ fetched evs = firstn 15 (link :: more)
          /\ incl (extracted evs) (firstn 15 (link :: more))
          /\ List.length (extracted evs) <= 15
    | Ok [] =>
        exists items s2 evs,
          collect_items w html source s = (Ok items, s2)
          /\ trace s2 = trace s1 ++ ListScan :: evs
          /\ Forall (fun e => is_page_event e = true) evs
          /\ match fst (parse_list_section_bs4 w html s1) with
             | Ok (_ :: _) => ~ In RegexScan evs
             | _ => In RegexScan evs
             end
    end.
Proof.
  intros w html source s. unfold collect_items, bind.
  destruct (extract_pdf_links_bs4 w html source s) as [[links|e] s1];
    [|reflexivity].
  destruct links as [|link more].
  - apply page_fallback_run.
  - destruct (pdf_loop_run w (firstn 15 (link :: more)) [] s1)
      as (items & s2 & evs & R & T & F & Fe & X & L).
    exists items, s2, evs. repeat split; auto.
    etransitivity; [exact L | apply firstn_length_bound].
Qed.

(** *** The whole run *)

Lemma written_app (a b : list event) : written (a ++ b) = written a ++ written b.
Proof. unfold written. apply flat_map_app. Qed.

Lemma written_pdf_events (evs : list event) :
  Forall (fun e => is_pdf_event e = true) evs -> written evs = [].
Proof.
  induction 1 as [|e evs He _ IH]; simpl; [reflexivity|].
  destruct e; simpl in *; try discriminate; exact IH.
Qed.

Lemma written_page_events (evs : list event) :
  Forall (fun e => is_page_event e = true) evs -> written evs = [].
Proof.
  induction 1 as [|e evs He _ IH]; simpl; [reflexivity|].
  destruct e; simpl in *; try discriminate; exact IH.
Qed.

(** The request for the page never raises, and a failed request leaves the
    empty text. *)
Lemma fetch_html_run (w : world) (source : str) (s : state event) :
  exists html s' evs,
    fetch_html w source s = (Ok html, s')
    /\ trace s' = trace s ++ evs
    /\ written evs = []
    /\ (forall msg, w_http_get w source = Fails msg -> html = []).
Proof.
  unfold fetch_html. run_monad.
  destruct (w_http_get w source) as [html|msg]; simpl.
  - give_run. split; [reflexivity | discriminate].
  - give_run. split; reflexivity.
Qed.

(** With an HTML parser that does not raise while the links are read, the
    three strategies return a list and write no file. *)
Lemma collect_items_run (w : world) (html source : str) (s : state event) :
  links_readable w html ->
  exists items s' evs,
    collect_items w html source s = (Ok items, s')
    /\ trace s' = trace s ++ evs
    /\ written evs = [].
Proof.
  intros Hh.
  pose proof (collect_items_cases w html source s) as H.
  assert (L : exists links,
             extract_pdf_links_bs4 w html source s
             = (Ok links, mk_state (clock_reads s) (trace s ++ [LinkExtraction]))).
  { unfold extract_pdf_links_bs4. run_monad.
    destruct Hh as [Hb | [hrefs Hh]].
    - rewrite Hb. simpl. eauto.
    - destruct (w_bs4_importable w); simpl; [|eauto].
      rewrite Hh. simpl. eauto. }
  destruct L as [links L]. rewrite L in H. simpl in H.
  destruct links as [|link more];
    destruct H as (items & s2 & evs & R & T & F & _).
  - exists items, s2, (LinkExtraction :: ListScan :: evs).
    split; [exact R|]. split.
    + rewrite T, <- app_assoc. reflexivity.
    + simpl. apply written_page_events. exact F.
  - exists items, s2, (LinkExtraction :: evs).
    split; [exact R|]. split.
    + rewrite T, <- app_assoc. reflexivity.
    + simpl. apply written_pdf_events. exact F.
Qed.

(** Writing never raises, writes nothing but the payload, and writes it
    when the file system lets it. *)
Lemma write_output_run (w : world) (items : list OutageNotice)
    (payload path : str) (s : state event) :
  exists s' evs,
    write_output w items payload path s = (Ok tt, s')
    /\ trace s' = trace s ++ evs
    /\ Forall (fun pc => snd pc = payload) (written evs)
    /\ (w_write_file w path payload = Returns tt -> In (path, payload) (written evs)).
Proof.
  unfold write_output. run_monad.
  destruct (w_write_file w path payload) as [[]|msg]; simpl.
  - do 2 eexists. split; [reflexivity|]. split.
    + simpl. rewrite <- app_assoc. simpl. reflexivity.
    + simpl. split; [repeat constructor | auto].
  - do 2 eexists. split; [reflexivity|]. split; [reflexivity|].
    simpl. split; [constructor | discriminate].
Qed.

Lemma write_mirror_run (w : world) (payload path : str) (s : state event) :
  exists s' evs,
    write_mirror w payload path s = (Ok tt, s')
    /\ trace s' = trace s ++ evs
    /\ Forall (fun pc => snd pc = payload) (written evs).
Proof.
  unfold write_mirror. run_monad.
  destruct (w_write_file w path payload) as [[]|msg]; simpl.
  - do 2 eexists. split; [reflexivity|]. split.
    + simpl. rewrite <- app_assoc. simpl. reflexivity.
    + simpl. repeat constructor.
  - do 2 eexists. split; [reflexivity|]. split; [reflexivity|].
    simpl. constructor.
Qed.

Lemma main_run (w : world) (argv : list token) (args : namespace) :
  parse_args (arguments w) argv = Ok args ->
  (forall html s0,
      fetch_html w (attr_str args "source") start = (Ok html, s0) ->
      links_readable w html) ->
  exists html s0 items s1 s',
    fetch_html w (attr_str args "source") start = (Ok html, s0)
    /\ (forall msg, w_http_get w (attr_str args "source") = Fails msg -> html = [])
    /\ collect_items w html (attr_str args "source") s0 = (Ok items, s1)
    /\ main w argv start = (Ok 0%Z, s')
    /\ Forall (fun pc => snd pc = json_dumps (merge_and_sort items))
         (written (trace s'))
    /\ (w_write_file w (attr_str args "output") (json_dumps (merge_and_sort items))
        = Returns tt ->
        In (attr_str args "output", json_dumps (merge_and_sort items))
           (written (trace s'))).
Proof.
  intros Hp Hsoup.
  set (source := attr_str args "source").
  set (output := attr_str args "output").
  destruct (fetch_html_run w source start)
    as (html & s0 & evs0 & R0 & T0 & W0 & Hfail).
  destruct (@collect_items_run w html source s0 (Hsoup html s0 R0))
    as (items & s1 & evs1 & R1 & T1 & W1).
  set (payload := json_dumps (merge_and_sort items)).
  destruct (write_output_run w (merge_and_sort items) payload output s1)
    as (s2 & evs2 & R2 & T2 & F2 & I2).
  assert (M : exists s3 evs3,
             (if truthy (attr_str args "mirror")
              then write_mirror w payload (attr_str args "mirror")
              else ret tt) s2 = (Ok tt, s3)
             /\ trace s3 = trace s2 ++ evs3
             /\ Forall (fun pc => snd pc = payload) (written evs3)).
  { destruct (truthy (attr_str args "mirror")).
    - apply write_mirror_run.
    - exists s2, []. rewrite app_nil_r. repeat split. constructor. }
  destruct M as (s3 & evs3 & R3 & T3 & F3).
  exists html, s0, items, s1, s3.
  split; [exact R0|]. split; [exact Hfail|]. split; [exact R1|].
  assert (Tr : written (trace s3) = written evs2 ++ written evs3).
  { rewrite T3, T2, T1, T0. simpl.
    rewrite !written_app, W0, W1. reflexivity. }
  split; [|split].
  - unfold main. rewrite Hp. fold source. unfold bind.
    rewrite R0, R1. fold payload. fold output. rewrite R2, R3. reflexivity.
  - rewrite Tr. apply Forall_app. split; assumption.
  - intros Hw. rewrite Tr. apply in_or_app. left. apply I2. exact Hw.
Qed.
End OrchestratorFacts.

Module OrchestratorClaims.
Import Fetcher OrchestratorFacts.
Local Arguments firstn : simpl never.

(** C5, as stated, fails on a command line without the output path: the
    argument parser ends the process with status 2 before any step runs,
    and nothing is written. *)
Lemma main_exits_2_without_output_path :
  run unreachable_world [] = (2%Z, []).
Proof. vm_compute. reflexivity. Qed.

(** C5, amended.  On a command line that the argument parser accepts, and
    when the HTML parser does not raise while the links of the page of the
    run are read, [main] returns 0 whatever the request for the page, the fetching
    and parsing of the PDFs, the two scans of the page and the writing of the
    files do; a failed request leaves the empty page; every file written
    holds the JSON of the merged items, the output path among them when the
    file system lets it; and with no item that JSON is the empty array. *)
Theorem main_returns_0_once_arguments_parse :
  forall (w : world) (argv : list token) (args : namespace),
    parse_args (arguments w) argv = Ok args ->
    (forall html s0,
        fetch_html w (attr_str args "source") start = (Ok html, s0) ->
        links_readable w html) ->
    exists html s0 items s1 s',
      fetch_html w (attr_str args "source") start = (Ok html, s0)
      /\ (forall msg,
             w_http_get w (attr_str args "source") = Fails msg -> html = [])
      /\ collect_items w html (attr_str args "source") s0 = (Ok items, s1)
      /\ main w argv start = (Ok 0%Z, s')
      /\ fst (run w argv) = 0%Z
      /\ Forall (fun pc => snd pc = json_dumps (merge_and_sort items))
           (written (trace s'))
      /\ (w_write_file w (attr_str args "output")
            (json_dumps (merge_and_sort items)) = Returns tt ->
          In (attr_str args "output", json_dumps (merge_and_sort items))
             (written (trace s')))
      /\ (items = [] -> json_dumps (merge_and_sort items) = cp "[]").
Proof.
  intros w argv args Hp Hsoup.
  destruct (@main_run w argv args Hp Hsoup)
    as (html & s0 & items & s1 & s' & R0 & Hf & R1 & Rm & Fw & Iw).
  exists html, s0, items, s1, s'.
  repeat (split; [assumption|]).
  split; [unfold run; rewrite Rm; reflexivity|].
  repeat (split; [assumption|]).
  intros ->. reflexivity.
Qed.

(** C5, amended, at the site that cannot be reached. *)
Lemma main_returns_0_once_arguments_parse_witness :
  exists args,
    parse_args (arguments unreachable_world) [Positional sample_output] = Ok args
    /\ exists html s0 items s1 s',
      fetch_html unreachable_world (attr_str args "source") start = (Ok html, s0)
      /\ (forall msg,
             w_http_get unreachable_world (attr_str args "source") = Fails msg ->
             html = [])
      /\ collect_items unreachable_world html (attr_str args "source") s0
         = (Ok items, s1)
      /\ main unreachable_world [Positional sample_output] start = (Ok 0%Z, s')
      /\ fst (run unreachable_world [Positional sample_output]) = 0%Z
      /\ Forall (fun pc => snd pc = json_dumps (merge_and_sort items))
           (written (trace s'))
      /\ (w_write_file unreachable_world (attr_str args "output")
            (json_dumps (merge_and_sort items)) = Returns tt ->
          In (attr_str args "output", json_dumps (merge_and_sort items))
             (written (trace s')))
      /\ (items = [] -> json_dumps (merge_and_sort items) = cp "[]").
Proof.
  eexists. split; [vm_compute; reflexivity|].
  apply main_returns_0_once_arguments_parse.
  - vm_compute. reflexivity.
  - intros html s0 _. right. exists []. reflexivity.
Defined.

(** C6.  After the link extraction, [main] takes one of two ways.  When the
    page yields PDF links, it fetches the first 15 of them, in order and
    each once, passes to the record extractor nothing but what it fetched
    (so at most 15 PDFs), and runs neither scan of the page.  When there is
    no PDF link, it scans the text of the page, touches no PDF, and runs the
    raw keyword scan of the HTML exactly when the scan of the text yielded
    no item. *)
Theorem strategies_in_fixed_order :
  forall (w : world) (html source : str) (s : state event),
    let (links, s1) := extract_pdf_links_bs4 w html source s in
    match links with
    | Raise e => collect_items w html source s = (Raise e, s1)
    | Ok (link :: more) =>
        exists items s2 evs,
          collect_items w html source s = (Ok items, s2)
          /\ trace s2 = trace s1 ++ evs
          /\ Forall (fun e => is_pdf_event e = true) evs
          /\ fetched evs = firstn 15 (link :: more)
          /\ incl (extracted evs) (firstn 15 (link :: more))
          /\ (List.length (extracted evs) <= 15)%nat
    | Ok [] =>
        exists items s2 evs,
          collect_items w html source s = (Ok items, s2)
          /\ trace s2 = trace s1 ++ ListScan :: evs
          /\ Forall (fun e => is_page_event e = true) evs
          /\ match fst (parse_list_section_bs4 w html s1) with
             | Ok (_ :: _) => ~ In RegexScan evs
             | _ => In RegexScan evs
             end
    end.
Proof. exact collect_items_cases. Qed.

(** A page with twenty PDF links: the first fifteen are fetched, none of
    them can be read, and neither scan of the page runs. *)
Example twenty_links_fifteen_fetches :
  let (status, evs) := run twenty_links_world [Positional sample_output] in
  status = 0%Z
  /\ fetched evs = firstn 15 twenty_links
  /\ extracted evs = []
  /\ existsb (fun e => match e with ListScan | RegexScan => true | _ => false end)
       evs = false
  /\ written evs = [(sample_output, cp "[]")].
Proof. vm_compute. repeat split. Qed.

(** C10.  For every HTML text, [parse_with_regex] returns at most 50
    records, and so does [parse_list_section_bs4] whenever it returns (an
    exception of the HTML parser returns nothing), whatever the number of
    matches or of fragments with a keyword. *)
Theorem html_parsers_return_at_most_50 :
  forall (w : world) (now : datetime) (html : str) (s : state event),
    (List.length (parse_with_regex (w_sha1_hexdigest w) (w_environ_source w) now html)
      <= 50)%nat
    /\ match fst (parse_list_section_bs4 w html s) with
       | Ok outages => (List.length outages <= 50)%nat
       | Raise _ => True
       end
    /\ match fst (run_parse_with_regex w html s) with
       | Ok outages => (List.length outages <= 50)%nat
       | Raise _ => False
       end.
Proof.
  intros w now html s. split; [|split].
  - unfold parse_with_regex. rewrite length_map. apply firstn_length_bound.
  - unfold parse_list_section_bs4. run_monad.
    destruct (w_bs4_importable w); simpl; [|lia].
    destruct (w_soup_texts w html); simpl; [|exact I].
    rewrite length_map. apply firstn_length_bound.
  - unfold run_parse_with_regex. run_monad.
    unfold parse_with_regex. rewrite length_map. apply firstn_length_bound.
Qed.

(** Sixty notices in the raw HTML give fifty records. *)
Example sixty_matches_fifty_records :
  List.length
    (parse_with_regex sample_digest None sample_now
       (List.concat (repeat (cp "<li>Power Maintenance Notice</li>" ++ [10]) 60)))
  = 50%nat.
Proof. vm_compute. reflexivity. Qed.

(** The run against a site that cannot be reached: a warning, the three
    strategies in turn, and the empty array written to the output path. *)
Example unreachable_site_writes_empty_array :
  run unreachable_world [Positional sample_output]
  = (0%Z,
     [ HttpGet (cp "https://www.kplc.co.ke/customer-support#powerschedule");
       Stderr (cp "WARN: failed to fetch source: <urlopen error timed out>");
       LinkExtraction; ListScan; RegexScan;
       FileWrite sample_output (cp "[]");
       Stdout (cp "Wrote 0 outages -> models/planned_outages.json") ]).
Proof. vm_compute. reflexivity. Qed.

(** The call of [extract_pdf_links_bs4] stands outside every guard of
    [main]: when the HTML parser raises there, the exception leaves [main],
    the process ends with status 1 and no file is written. *)
Example link_extraction_is_not_guarded :
  run rejecting_parser_world [Positional sample_output]
  = (1%Z,
     [ HttpGet (cp "https://www.kplc.co.ke/customer-support#powerschedule");
       LinkExtraction ]).
Proof. vm_compute. reflexivity. Qed.

End OrchestratorClaims.

(* ------------------------------------------------------------------ *)
(** ** The trainers *)

Module TrainerClaims.
Import OrchestratorFacts.

Section Pipeline.
Variables Data Trained : Type.
Variable w : Trainer.world Data Trained.



End Pipeline.




(** A run with no exception. *)
Example healthy_trainer_run :
  Trainer.run healthy_trainer
    [Named (cp "--input") sample_parquet; Named (cp "--output") sample_model_dir]
  = (0%Z, [Trainer.Load sample_parquet; Trainer.Train;
           Trainer.Save sample_model_dir;
           Trainer.Stdout (cp "Training completed successfully!")]).
Proof. vm_compute. reflexivity. Qed.





(** The sequence length reaches the pipeline of the trainer that has one. *)
Example sequence_trainer_run :
  SeqTrainer.run (fun _ _ _ => Returns tt)
    [Named (cp "--input") sample_parquet;
     Named (cp "--sequence_length") (cp "12")]
  = (0%Z, [SeqTrainer.Pipeline sample_parquet (cp "./models") 12]).
Proof. vm_compute. reflexivity. Qed.
End TrainerClaims.

(* ------------------------------------------------------------------ *)
(** ** Time fields *)

Module TimeFacts.

Lemma digit_char_is_digit (n : N) : is_ascii_digit (digit_char n) = true.
Proof.
  unfold is_ascii_digit, digit_char, in_range.
  assert (H : n mod 10 < 10) by (apply N.mod_upper_bound; discriminate).
  revert H. generalize (n mod 10). intros m H.
  apply andb_true_iff. split; apply N.leb_le; lia.
Qed.

(** Names the digits of the goal, keeping only that they are digits. *)
Ltac name_digits :=
  repeat match goal with
         | |- context [digit_char ?x] =>
             let H := fresh "D" in
             pose proof (digit_char_is_digit x) as H;
             revert H; generalize (digit_char x); intros ? H
         end.

Ltac use_digits :=
  repeat match goal with
         | H : is_ascii_digit _ = true |- _ => rewrite H; clear H
         end.

(** [isoformat()] always yields an ISO 8601 date and time. *)
Lemma isoformat_is_iso8601 (d : datetime) : is_iso8601 (isoformat d) = true.
Proof.
  destruct d as [y mo dd h mi s us ok1 ok2].
  unfold isoformat. simpl year; simpl month; simpl day; simpl hour;
    simpl minute; simpl second; simpl microsecond.
  change (cp "-") with [45]. change (cp "T") with [84].
  change (cp ":") with [58]. change (cp ".") with [46].
  cbn [fixed_width app].
  destruct (us =? 0); name_digits;
    cbn [is_iso8601 is_time_then_offset is_fraction_then_offset is_offset
         all_digits forallb drop_while andb];
    use_digits; reflexivity.
Qed.

End TimeFacts.

Module TimeFieldClaims.
Import Fetcher ExtractorFacts TimeFacts OrchestratorFacts.

Section EndTimes.
Variable sha1_hexdigest : str -> str.
Variable now_iso : str.
Variable pdf_url : str.
Variable lines : list str.

Local Abbreviation flush := (flush sha1_hexdigest now_iso pdf_url).
Local Abbreviation scan_line := (scan_line sha1_hexdigest now_iso pdf_url).

Local Abbreviation ends_are_raw := (ends_are_raw lines).

Lemma flush_ends_are_raw (st : scan) : ends_are_raw st -> ends_are_raw (flush st).
Proof.
  intros [He Ho]. unfold Fetcher.flush.
  destruct (_ || _); [|split; assumption].
  split; simpl; [left; reflexivity|].
  apply Forall_app. split; [assumption|].
  constructor; [exact He | constructor].
Qed.

Lemma scan_line_ends_are_raw (st : scan) (ln : str) :
  In ln lines -> ends_are_raw st -> ends_are_raw (scan_line st ln).
Proof.
  intros Hin H. unfold Fetcher.scan_line.
  destruct (negb (truthy ln)); [assumption|].
  destruct (search region_re ln).
  { apply flush_ends_are_raw in H. destruct H as [He Ho].
    split; assumption. }
  destruct H as [He Ho].
  destruct (search area_re ln); [split; assumption|].
  destruct (search date_re ln); [split; assumption|].
  destruct (search time_re ln) as [m|] eqn:Et; [|split; assumption].
  split; simpl; [|assumption].
  right. exists ln, m. auto.
Qed.

Lemma fold_ends_are_raw (l : list str) :
  forall st,
    incl l lines -> ends_are_raw st -> ends_are_raw (fold_left scan_line l st).
Proof.
  induction l as [|ln l IH]; simpl; intros st Hincl H; [assumption|].
  apply IH.
  - intros x Hx. apply Hincl. right. exact Hx.
  - apply scan_line_ends_are_raw; [apply Hincl; left; reflexivity | exact H].
Qed.

Lemma structured_scan_ends_are_raw :
  Forall (fun r => raw_time_of lines (endTime r))
    (structured_scan sha1_hexdigest now_iso pdf_url lines).
Proof.
  unfold structured_scan.
  apply flush_ends_are_raw. apply fold_ends_are_raw.
  - apply incl_refl.
  - split; [left; reflexivity | constructor].
Qed.

End EndTimes.

(** The groups that [parse_datetime_range] and [extract_pdf_links_bs4] read
    take part in every match of their patterns. *)
Lemma group_of_other_searches :
  forall text m,
    (search LegacyFetcher.date_match_re text = Some m ->
     mgroup 1 m = Some (group_text 1 m))
    /\ (search LegacyFetcher.time_range_re text = Some m ->
        mgroup 1 m = Some (group_text 1 m)
        /\ mgroup 3 m = Some (group_text 3 m))
    /\ (re_match host_re text = Some m -> mgroup 1 m = Some (group_text 1 m)).
Proof.
  intros text m. split; [|split].
  - intros H. apply (@search_group 1) in H; [|reflexivity].
    destruct H as [g H]. unfold group_text. rewrite H. reflexivity.
  - intros H. split.
    + apply (@search_group 1) in H; [|reflexivity].
      destruct H as [g H]. unfold group_text. rewrite H. reflexivity.
    + apply (@search_group 3) in H; [|reflexivity].
      destruct H as [g H]. unfold group_text. rewrite H. reflexivity.
  - intros H. apply (@exec_group 1) in H; [|reflexivity].
    destruct H as [g H]. unfold group_text. rewrite H. reflexivity.
Qed.

(** The coarse entries have no times. *)
Lemma coarse_notices_no_times (A : Type) (f : A -> OutageNotice) (l : list A) :
  (forall x, no_times (f x)) -> Forall no_times (map f l).
Proof.
  intros H. apply Forall_forall. intros r Hr. apply in_map_iff in Hr.
  destruct Hr as (t & <- & _). apply H.
Qed.

(** C7, as stated, fails for the records of the structured scan: the sample
    bulletin gives a record whose startTime is the date as printed in the
    bulletin and one whose endTime is the time range as printed there, and
    neither is empty or an ISO 8601 text. *)
Lemma structured_records_keep_printed_times :
  map (fun r => (startTime r, is_iso8601 (startTime r),
                 endTime r, is_iso8601 (endTime r)))
      (parse_pdf_for_outages sample_digest sample_now sample_bulletin
         sample_pdf_url)
  = [ (cp "Sunday 15.06.2025", false, [], false);
      ([], false, cp "8.30 A.M. " ++ [8211] ++ cp " 4.30 P.M.", false) ].
Proof. vm_compute. reflexivity. Qed.

(** C7, amended.  The records of [parse_with_regex] and of
    [parse_list_section_bs4], and the fallback record of
    [parse_pdf_for_outages], have an empty startTime and an empty endTime.
    In every record of [parse_pdf_for_outages] the endTime is empty or the
    text that follows a time marker on a line of the input, stripped and
    otherwise kept as printed.  Each of the two values that
    [parse_datetime_range] returns is either absent, which [fetch] stores as
    the empty text, or the [isoformat()] of a datetime, an ISO 8601 text. *)
Theorem time_fields_by_extraction_path :
  forall (w : world) (strptime : str -> str -> option datetime)
         (now : datetime) (text pdf_url html title first_line : str)
         (s : state event),
    Forall no_times
      (parse_with_regex (w_sha1_hexdigest w) (w_environ_source w) now html)
    /\ match fst (parse_list_section_bs4 w html s) with
       | Ok outages => Forall no_times outages
       | Raise _ => True
       end
    /\ no_times (fallback_notice (w_sha1_hexdigest w) (now_iso_of now) pdf_url
                   first_line)
    /\ Forall (fun r => raw_time_of (normalized_lines text) (endTime r))
         (parse_pdf_for_outages (w_sha1_hexdigest w) now text pdf_url)
    /\ iso_or_empty
         (LegacyFetcher.or_empty
            (fst (LegacyFetcher.parse_datetime_range strptime title)))
    /\ iso_or_empty
         (LegacyFetcher.or_empty
            (snd (LegacyFetcher.parse_datetime_range strptime title))).
Proof.
  intros w strptime now text pdf_url html title first_line s.
  split; [|split; [|split; [|split]]].
  - unfold parse_with_regex. apply coarse_notices_no_times.
    intros t. split; reflexivity.
  - unfold parse_list_section_bs4. run_monad.
    destruct (w_bs4_importable w); simpl; [|constructor].
    destruct (w_soup_texts w html); simpl; [|exact I].
    apply coarse_notices_no_times. intros t. split; reflexivity.
  - split; reflexivity.
  - unfold parse_pdf_for_outages, scan_with_fallback.
    pose proof (structured_scan_ends_are_raw (w_sha1_hexdigest w)
                  (now_iso_of now) pdf_url (normalized_lines text)) as H.
    destruct (structured_scan _ _ _ _) as [|r rs]; [|exact H].
    destruct (normalized_lines text) as [|l ls]; [constructor|].
    constructor; [left; reflexivity | constructor].
  - unfold LegacyFetcher.parse_datetime_range.
    destruct (search LegacyFetcher.date_match_re title);
      [|split; left; reflexivity].
    destruct (search LegacyFetcher.time_range_re title);
      [|split; left; reflexivity].
    simpl. split.
    + destruct (LegacyFetcher.parse_clock _ _); simpl;
        [right; apply isoformat_is_iso8601 | left; reflexivity].
    + destruct (LegacyFetcher.parse_clock _ _); simpl;
        [right; apply isoformat_is_iso8601 | left; reflexivity].
Qed.

End TimeFieldClaims.

(* ================================================================== *)
(** * Further properties of the code *)

(* ------------------------------------------------------------------ *)
(** ** [normalize_space] *)

Module NormalizeFacts.

Lemma single_spaced_weaken (s : str) :
  single_spaced true s = true -> single_spaced false s = true.
Proof.
  destruct s as [|c s]; simpl; auto.
  destruct (is_space c); auto.
  rewrite !andb_true_iff. intros [[_ H] _]. discriminate.
Qed.

Lemma sub_spaces_single_spaced (s : str) :
  forall b, single_spaced b (sub_spaces b s) = true.
Proof.
  induction s as [|c s IH]; intros b; simpl; [reflexivity|].
  destruct (is_space c) eqn:E.
  - destruct b; [apply IH|].
    simpl. rewrite IH. reflexivity.
  - simpl. rewrite E. apply IH.
Qed.

Lemma drop_spaces_single_spaced (s : str) :
  forall b, single_spaced b s = true ->
            single_spaced true (drop_while is_space s) = true.
Proof.
  induction s as [|c s IH]; intros b H; simpl; [reflexivity|].
  simpl in H. destruct (is_space c) eqn:E.
  - apply andb_true_iff in H. destruct H as [_ H]. eapply IH. exact H.
  - simpl. rewrite E. exact H.
Qed.

Lemma single_spaced_prefix (s u : str) :
  forall b, single_spaced b (s ++ u) = true -> single_spaced b s = true.
Proof.
  induction s as [|c s IH]; intros b H; simpl; [reflexivity|].
  simpl in H. destruct (is_space c).
  - rewrite !andb_true_iff in *. destruct H as [H1 H2]. split; [exact H1|].
    apply IH. exact H2.
  - apply IH. exact H.
Qed.

Lemma single_spaced_snoc (s : str) (c : N) :
  forall b, single_spaced b (s ++ [c]) = true -> is_space c = false ->
            is_normal_from b (s ++ [c]) = true.
Proof.
  induction s as [|x s IH]; intros b H E; simpl in *.
  - rewrite E. reflexivity.
  - destruct (is_space x).
    + rewrite !andb_true_iff in *. destruct H as [H1 H2]. split; [exact H1|].
      apply IH; assumption.
    + apply IH; assumption.
Qed.

Lemma rstrip_snoc (s : str) (c : N) :
  rstrip (s ++ [c]) = if is_space c then rstrip s else s ++ [c].
Proof.
  unfold rstrip. rewrite rev_app_distr. simpl.
  destruct (is_space c); [reflexivity|].
  simpl. rewrite rev_involutive. reflexivity.
Qed.

Lemma rstrip_normal (s : str) :
  single_spaced true s = true -> is_normalized (rstrip s) = true.
Proof.
  induction s as [|c s IH] using rev_ind; intros H; [reflexivity|].
  rewrite rstrip_snoc. destruct (is_space c) eqn:E.
  - apply IH. eapply single_spaced_prefix. exact H.
  - pose proof (single_spaced_snoc s c true H E) as G.
    unfold is_normalized. destruct (s ++ [c]); [reflexivity | exact G].
Qed.

Lemma is_normal_from_weaken (s : str) :
  is_normal_from true s = true -> is_normal_from false s = true.
Proof.
  destruct s as [|c s]; simpl; [discriminate|].
  destruct (is_space c); auto.
  rewrite !andb_true_iff. intros [[_ H] _]. discriminate.
Qed.

Lemma sub_spaces_normal (s : str) :
  forall b, is_normal_from b s = true -> sub_spaces b s = s.
Proof.
  induction s as [|c s IH]; intros b H; simpl in *; [reflexivity|].
  destruct (is_space c).
  - rewrite !andb_true_iff in H. destruct H as [[Hc Hb] Hs].
    apply N.eqb_eq in Hc. subst c.
    destruct b; [discriminate|]. f_equal. apply IH. exact Hs.
  - f_equal. apply IH. exact H.
Qed.

Lemma normal_ends (s : str) :
  forall b, is_normal_from b s = true ->
            s = [] \/ exists s' c, s = s' ++ [c] /\ is_space c = false.
Proof.
  induction s as [|x s IH]; intros b H; [left; reflexivity|].
  right. simpl in H.
  assert (X : exists b', is_normal_from b' s = true
                         /\ (is_space x = true -> b' = true)).
  { destruct (is_space x).
    - rewrite !andb_true_iff in H. destruct H as [_ H]. eauto.
    - exists false. split; [exact H | discriminate]. }
  destruct X as (b' & Hs & Hx).
  destruct (IH b' Hs) as [-> | (s' & c & -> & Ec)].
  - exists [], x. split; [reflexivity|].
    destruct (is_space x); [|reflexivity].
    rewrite (Hx eq_refl) in Hs. discriminate.
  - exists (x :: s'), c. split; [reflexivity | exact Ec].
Qed.

Lemma normalize_space_fixes_normalized (s : str) :
  is_normalized s = true -> normalize_space s = s.
Proof.
  unfold is_normalized, normalize_space, strip, lstrip.
  destruct s as [|c s]; [reflexivity|]. intros H.
  rewrite (sub_spaces_normal _ _ (is_normal_from_weaken _ H)).
  assert (E : is_space c = false).
  { simpl in H. destruct (is_space c); [|reflexivity].
    rewrite !andb_true_iff in H. destruct H as [[_ H] _]. discriminate. }
  simpl. rewrite E.
  destruct (normal_ends _ _ H) as [X | (s' & x & X & Ex)]; [discriminate|].
  rewrite X, rstrip_snoc, Ex. reflexivity.
Qed.

Lemma non_space_sub_spaces (s : str) :
  forall b, non_space (sub_spaces b s) = non_space s.
Proof.
  unfold non_space.
  induction s as [|c s IH]; intros b; simpl; [reflexivity|].
  destruct (is_space c) eqn:E; simpl.
  - destruct b; simpl; apply IH.
  - rewrite E. simpl. f_equal. apply IH.
Qed.

Lemma non_space_drop (s : str) : non_space (drop_while is_space s) = non_space s.
Proof.
  unfold non_space.
  induction s as [|c s IH]; simpl; [reflexivity|].
  destruct (is_space c) eqn:E; simpl; [exact IH|].
  rewrite E. reflexivity.
Qed.

Lemma non_space_rev (s : str) : non_space (rev s) = rev (non_space s).
Proof.
  unfold non_space.
  induction s as [|c s IH]; simpl; [reflexivity|].
  rewrite filter_app, IH. simpl.
  destruct (is_space c); simpl; [apply app_nil_r | reflexivity].
Qed.

Lemma non_space_strip (s : str) : non_space (strip s) = non_space s.
Proof.
  unfold strip, rstrip, lstrip.
  rewrite non_space_rev, non_space_drop, non_space_rev, rev_involutive.
  apply non_space_drop.
Qed.

Lemma non_space_nil (s : str) : non_space s = [] <-> forallb is_space s = true.
Proof.
  unfold non_space. induction s as [|c s IH]; simpl; [tauto|].
  destruct (is_space c); simpl; [exact IH|].
  split; discriminate.
Qed.

(** The result of [normalize_space] is normalized: its only white space is
    single spaces between other characters. *)
Theorem normalize_space_is_normalized :
  forall s : str, is_normalized (normalize_space s) = true.
Proof.
  intros s. unfold normalize_space, strip, lstrip.
  apply rstrip_normal.
  eapply drop_spaces_single_spaced. apply sub_spaces_single_spaced.
Qed.

(** Normalizing twice is normalizing once. *)
Theorem normalize_space_idempotent :
  forall s : str, normalize_space (normalize_space s) = normalize_space s.
Proof.
  intros s. apply normalize_space_fixes_normalized.
  unfold normalize_space, strip, lstrip.
  apply rstrip_normal.
  eapply drop_spaces_single_spaced. apply sub_spaces_single_spaced.
Qed.

(** [normalize_space] keeps the characters that are not white space, all of
    them and in their order; so its result is empty exactly for a text made
    of white space only. *)
Theorem normalize_space_keeps_non_space :
  forall s : str,
    non_space (normalize_space s) = non_space s
    /\ (normalize_space s = [] <-> forallb is_space s = true).
Proof.
  intros s.
  assert (K : non_space (normalize_space s) = non_space s).
  { unfold normalize_space. rewrite non_space_strip. apply non_space_sub_spaces. }
  split; [exact K|].
  rewrite <- non_space_nil, <- K. split.
  - intros ->. reflexivity.
  - intros H.
    assert (N : is_normalized (normalize_space s) = true).
    { unfold normalize_space, strip, lstrip. apply rstrip_normal.
      eapply drop_spaces_single_spaced. apply sub_spaces_single_spaced. }
    destruct (normalize_space s) as [|c t]; [reflexivity|].
    exfalso. unfold is_normalized in N. simpl in N.
    unfold non_space in H. simpl in H.
    destruct (is_space c); simpl in H; [|discriminate].
    rewrite !andb_true_iff in N. destruct N as [[_ N] _]. discriminate.
Qed.

End NormalizeFacts.

(* ------------------------------------------------------------------ *)
(** ** The parsers of the fetcher *)

Module ParserFacts.
Import Fetcher ExtractorFacts OrchestratorFacts TimeFacts NormalizeFacts.

Local Open Scope nat_scope.
Local Arguments firstn : simpl never.

(** *** Lists without repetitions *)

Lemma existsb_str_eqb (x : str) (l : list str) :
  existsb (str_eqb x) l = true <-> In x l.
Proof.
  rewrite existsb_exists. split.
  - intros (y & Hy & E). apply str_eqb_eq in E. subst y. exact Hy.
  - intros H. exists x. split; [exact H | apply str_eqb_refl].
Qed.

Lemma uniq_from_in (xs : list str) :
  forall seen x, In x (uniq_from seen xs) <-> In x xs /\ ~ In x seen.
Proof.
  induction xs as [|y xs IH]; intros seen x; simpl; [tauto|].
  destruct (existsb (str_eqb y) seen) eqn:E.
  - apply existsb_str_eqb in E. rewrite IH. split.
    + intros [H1 H2]. auto.
    + intros [[-> | H1] H2]; [contradiction | auto].
  - assert (Hy : ~ In y seen).
    { intros H. apply existsb_str_eqb in H. congruence. }
    simpl. rewrite IH. simpl. split.
    + intros [<- | [H1 H2]]; [auto|]. split; [auto|]. intros H. apply H2. auto.
    + intros [[<- | H1] H2]; [auto|].
      destruct (list_eq_dec N.eq_dec y x) as [<- | Hne]; [auto|].
      right. split; [exact H1|]. intros [H | H]; [contradiction | contradiction].
Qed.

Lemma uniq_from_nodup (xs : list str) :
  forall seen, NoDup (uniq_from seen xs).
Proof.
  induction xs as [|y xs IH]; intros seen; simpl; [constructor|].
  destruct (existsb (str_eqb y) seen); [apply IH|].
  constructor; [|apply IH].
  rewrite uniq_from_in. intros [_ H]. apply H. left. reflexivity.
Qed.

Lemma uniq_in (xs : list str) (x : str) : In x (uniq xs) <-> In x xs.
Proof. unfold uniq. rewrite uniq_from_in. simpl. tauto. Qed.

(** *** Links *)

Lemma starts_with_app (p a b : str) :
  starts_with p a = true -> starts_with p (a ++ b) = true.
Proof.
  revert a. induction p as [|x p IH]; intros a H; [reflexivity|].
  destruct a as [|y a]; simpl in *; [discriminate|].
  apply andb_true_iff in H. destruct H as [-> H]. simpl. apply IH. exact H.
Qed.

Lemma is_pdf_url_app (a b : str) : is_pdf_url b = true -> is_pdf_url (a ++ b) = true.
Proof.
  unfold is_pdf_url, ends_with, lower. intros H.
  rewrite flat_map_app, rev_app_distr. apply starts_with_app. exact H.
Qed.

Lemma pdf_link_is_pdf (base_url href u : str) :
  In u (pdf_link base_url href) -> is_pdf_url u = true.
Proof.
  unfold pdf_link.
  destruct (ends_with (cp ".pdf") (lower (strip href))) eqn:E; [|intros []].
  destruct (starts_with (cp "http") (strip href)).
  { intros [<- | []]. exact E. }
  destruct (starts_with (cp "/") (strip href)).
  { intros [<- | []]. apply is_pdf_url_app. exact E. }
  intros [<- | []]. rewrite app_assoc. apply is_pdf_url_app. exact E.
Qed.

(** The links that [extract_pdf_links_bs4] returns are distinct and each
    ends with [.pdf] in some case; without bs4 it returns the empty list; it
    raises only with bs4 at hand, when the parser of the page raises. *)
Theorem extracted_links_are_distinct_pdfs :
  forall (w : world) (html base_url : str) (s : state event),
    match fst (extract_pdf_links_bs4 w html base_url s) with
    | Ok links =>
        NoDup links
        /\ Forall (fun u => is_pdf_url u = true) links
        /\ (w_bs4_importable w = false -> links = [])
    | Raise e =>
        w_bs4_importable w = true
        /\ exists msg, e = Exception msg /\ w_soup_hrefs w html = Fails msg
    end.
Proof.
  intros w html base_url s. unfold extract_pdf_links_bs4. run_monad.
  destruct (w_bs4_importable w); simpl.
  2:{ repeat split; constructor. }
  destruct (w_soup_hrefs w html) as [hrefs|msg]; simpl.
  - split; [apply uniq_from_nodup|]. split; [|discriminate].
    apply Forall_forall. intros u Hu. apply (proj1 (uniq_in _ _)) in Hu.
    apply in_flat_map in Hu. destruct Hu as (href & _ & Hu).
    eapply pdf_link_is_pdf. exact Hu.
  - split; [reflexivity|]. eauto.
Qed.


(** *** Records of the HTML parsers *)

Lemma in_firstn (A : Type) (n : nat) (l : list A) (x : A) :
  In x (firstn n l) -> In x l.
Proof.
  intros H. rewrite <- (firstn_skipn n l). apply in_or_app. left. exact H.
Qed.

Lemma normal_is_single_spaced (s : str) :
  forall b, is_normal_from b s = true -> single_spaced b s = true.
Proof.
  induction s as [|c s IH]; intros b H; simpl in *; [reflexivity|].
  destruct (is_space c).
  - rewrite !andb_true_iff in *. destruct H as [H1 H2]. split; [exact H1|].
    apply IH. exact H2.
  - apply IH. exact H.
Qed.

Lemma take_normalized_single_spaced (n : nat) (s : str) :
  single_spaced true (take n (normalize_space s)) = true.
Proof.
  pose proof (rstrip_normal _ (drop_spaces_single_spaced _ _
                (sub_spaces_single_spaced s false))) as H.
  change (is_normalized (normalize_space s) = true) in H.
  unfold take. apply single_spaced_prefix with (u := skipn n (normalize_space s)).
  rewrite firstn_skipn.
  unfold is_normalized in H. destruct (normalize_space s); [reflexivity|].
  apply normal_is_single_spaced. exact H.
Qed.

Lemma coarse_notice_shape (sha : str -> str) (env : option str)
    (now_iso t : str) :
  is_coarse_record env (coarse_notice sha env now_iso (normalize_space t)).
Proof.
  unfold is_coarse_record. cbn [region area sourceUrl coarse_notice].
  repeat split.
  - unfold take. apply firstn_length_bound.
  - apply take_normalized_single_spaced.
Qed.

(** Every record of [parse_with_regex] and of [parse_list_section_bs4] has a
    region of at most 120 characters in which white space is single spaces
    only and does not lead, the area "Planned maintenance", and the default
    source URL (of the environment variable, or the built-in one) whatever
    page was read; the regions of [parse_list_section_bs4] have more than
    12 characters. *)
Theorem html_records_shape :
  forall (w : world) (now : datetime) (html : str) (s : state event),
    Forall (is_coarse_record (w_environ_source w))
      (parse_with_regex (w_sha1_hexdigest w) (w_environ_source w) now html)
    /\ match fst (parse_list_section_bs4 w html s) with
       | Ok outages =>
           Forall (fun r => is_coarse_record (w_environ_source w) r
                            /\ 12 < List.length (region r)) outages
       | Raise _ => True
       end.
Proof.
  intros w now html s. split.
  - unfold parse_with_regex. apply Forall_forall. intros r Hr.
    apply in_map_iff in Hr. destruct Hr as (m & <- & _).
    apply coarse_notice_shape.
  - unfold parse_list_section_bs4. run_monad.
    destruct (w_bs4_importable w); simpl; [|constructor].
    destruct (w_soup_texts w html) as [nodes|msg]; simpl; [|exact I].
    apply Forall_forall. intros r Hr.
    apply in_map_iff in Hr. destruct Hr as (t & <- & Ht).
    apply in_firstn in Ht. apply (proj1 (uniq_in _ _)) in Ht.
    apply filter_In in Ht. destruct Ht as [Ht Hk].
    apply in_map_iff in Ht. destruct Ht as (el & <- & _).
    split; [apply coarse_notice_shape|].
    cbn [region coarse_notice]. unfold has_keyword in Hk.
    apply andb_true_iff in Hk.
    destruct Hk as [_ Hk]. apply Nat.ltb_lt in Hk.
    unfold take. rewrite length_firstn. lia.
Qed.

(** *** Fetching the text of a PDF *)

(** [fetch_pdf_text] raises exactly when the download raises, with its
    exception.  Once the bytes are there it returns a text whatever pdfminer
    and PyPDF2 do: the text of pdfminer when that has a character that is
    not white space, and the empty text when pdfminer gave nothing of the
    kind and PyPDF2 raises. *)
Theorem fetch_pdf_text_raises_only_on_download :
  forall (w : world) (url : str) (s : state event),
    match w_urlopen_read w url with
    | Fails msg => fst (fetch_pdf_text w url s) = Raise (Exception msg)
    | Returns data =>
        exists text,
          fst (fetch_pdf_text w url s) = Ok text
          /\ (forall t, w_pdfminer_text w data = Returns t ->
                        truthy (strip t) = true -> text = t)
          /\ ((forall t, w_pdfminer_text w data = Returns t ->
                         truthy (strip t) = false) ->
              (exists msg, w_pypdf2_pages w data = Fails msg) -> text = [])
    end.
Proof.
  intros w url s. unfold fetch_pdf_text. run_monad.
  destruct (w_urlopen_read w url) as [data|msg]; simpl; [|reflexivity].
  destruct (w_pdfminer_text w data) as [t|msg] eqn:Em; simpl.
  - destruct (truthy (strip t)) eqn:Et; simpl.
    + exists t. split; [reflexivity|]. split.
      * intros t' E _. congruence.
      * intros H _. specialize (H t eq_refl). congruence.
    + eexists. split; [reflexivity|]. split.
      * intros t' E Ht'. injection E as <-. congruence.
      * intros _ [msg Hp]. unfold pypdf2_text. rewrite Hp. reflexivity.
  - eexists. split; [reflexivity|]. split.
    + intros t E. discriminate.
    + intros _ [m Hp]. unfold pypdf2_text. rewrite Hp. reflexivity.
Qed.

End ParserFacts.

(* ------------------------------------------------------------------ *)
(** ** The records of [parse_pdf_for_outages] *)

Module RecordFacts.
Import Fetcher ExtractorFacts OrchestratorFacts TimeFacts.

Local Open Scope nat_scope.

(** [now_iso] is an ISO 8601 time stamp in UTC, to the second. *)
Lemma now_iso_is_utc_stamp (now : datetime) :
  is_utc_stamp (now_iso_of now) = true.
Proof.
  destruct now as [y mo dd h mi s us ok1 ok2].
  unfold is_utc_stamp, now_iso_of, replace_microsecond0, isoformat.
  simpl year; simpl month; simpl day; simpl hour; simpl minute; simpl second;
    simpl microsecond.
  change (cp "-") with [45%N]. change (cp "T") with [84%N].
  change (cp ":") with [58%N]. change (cp "Z") with [90%N].
  cbn [fixed_width app N.eqb].
  name_digits.
  cbn [is_iso8601 is_time_then_offset is_fraction_then_offset is_offset
       all_digits forallb drop_while andb].
  use_digits. reflexivity.
Qed.

Section Scan.
Variable sha1_hexdigest : str -> str.
Variable now_iso : str.
Variable pdf_url : str.
Variable P : OutageNotice -> Prop.
Hypothesis P_in_progress :
  forall st, P (in_progress_notice sha1_hexdigest now_iso pdf_url st).

Local Abbreviation flush := (flush sha1_hexdigest now_iso pdf_url).
Local Abbreviation scan_line := (scan_line sha1_hexdigest now_iso pdf_url).

Lemma flush_forall (st : scan) :
  Forall P (s_outages st) -> Forall P (s_outages (flush st)).
Proof.
  intros H. unfold Fetcher.flush. destruct (_ || _); [|exact H].
  simpl. apply Forall_app. split; [exact H|].
  constructor; [apply P_in_progress | constructor].
Qed.

Lemma scan_line_forall (st : scan) (ln : str) :
  Forall P (s_outages st) -> Forall P (s_outages (scan_line st ln)).
Proof.
  intros H. unfold Fetcher.scan_line.
  destruct (negb (truthy ln)); [exact H|].
  destruct (search region_re ln); [apply flush_forall; exact H|].
  destruct (search area_re ln); [exact H|].
  destruct (search date_re ln); [exact H|].
  destruct (search time_re ln); exact H.
Qed.

(** Whatever holds of every record that [flush] can build holds of all the
    records of the structured scan. *)
Lemma structured_scan_forall (lines : list str) :
  Forall P (structured_scan sha1_hexdigest now_iso pdf_url lines).
Proof.
  unfold structured_scan. apply flush_forall.
  generalize scan_init (Forall_nil P : Forall P (s_outages scan_init)).
  induction lines as [|ln lines IH]; intros st H; simpl; [exact H|].
  apply IH. apply scan_line_forall. exact H.
Qed.

End Scan.

Section Count.
Variable sha1_hexdigest : str -> str.
Variable now_iso : str.
Variable pdf_url : str.

Local Abbreviation flush := (flush sha1_hexdigest now_iso pdf_url).
Local Abbreviation scan_line := (scan_line sha1_hexdigest now_iso pdf_url).

Lemma flush_length (st : scan) :
  List.length (s_outages (flush st)) <= S (List.length (s_outages st)).
Proof.
  unfold Fetcher.flush. destruct (_ || _); simpl; [|lia].
  rewrite length_app. simpl. lia.
Qed.

Lemma scan_line_length (st : scan) (ln : str) :
  List.length (s_outages (scan_line st ln))
  <= List.length (s_outages st) + (if is_region_line ln then 1 else 0).
Proof.
  unfold Fetcher.scan_line, is_region_line.
  destruct (truthy ln); simpl; [|lia].
  destruct (search region_re ln).
  { simpl. pose proof (flush_length st). lia. }
  destruct (search area_re ln); simpl; [lia|].
  destruct (search date_re ln); simpl; [lia|].
  destruct (search time_re ln); simpl; lia.
Qed.

Lemma fold_length (lines : list str) :
  forall st,
    List.length (s_outages (fold_left scan_line lines st))
    <= List.length (s_outages st) + region_lines lines.
Proof.
  unfold region_lines.
  induction lines as [|ln lines IH]; intros st; simpl; [lia|].
  specialize (IH (scan_line st ln)).
  pose proof (scan_line_length st ln) as H.
  destruct (is_region_line ln); simpl; lia.
Qed.

Lemma structured_scan_length (lines : list str) :
  List.length (structured_scan sha1_hexdigest now_iso pdf_url lines)
  <= S (region_lines lines).
Proof.
  unfold structured_scan.
  pose proof (flush_length (fold_left scan_line lines scan_init)) as H1.
  pose proof (fold_length lines scan_init) as H2. simpl in H2. lia.
Qed.

End Count.

(** Every record of [parse_pdf_for_outages] names the PDF. *)
Lemma parse_pdf_source (sha : str -> str) (now : datetime) (text pdf_url : str) :
  Forall (fun r => sourceUrl r = pdf_url)
    (parse_pdf_for_outages sha now text pdf_url).
Proof.
  unfold parse_pdf_for_outages, scan_with_fallback.
  pose proof (structured_scan_forall sha (now_iso_of now) pdf_url
                (fun r => sourceUrl r = pdf_url) (fun st => eq_refl)
                (normalized_lines text)) as H.
  destruct (structured_scan _ _ _ _) as [|r rs]; [|exact H].
  destruct (normalized_lines text); repeat constructor.
Qed.

(** [parse_pdf_for_outages] returns no record for the empty text only: any
    other text, even of white space alone, gives at least one record. *)
Theorem parse_pdf_returns_nothing_only_for_empty_text :
  forall (sha1_hexdigest : str -> str) (now : datetime) (text pdf_url : str),
    parse_pdf_for_outages sha1_hexdigest now text pdf_url = [] <-> text = [].
Proof.
  intros sha now text pdf_url. split.
  - unfold parse_pdf_for_outages, scan_with_fallback, normalized_lines.
    destruct (splitlines text) as [|l ls] eqn:E.
    + intros _. apply splitlines_nil. exact E.
    + simpl map.
      destruct (structured_scan _ _ _ _); discriminate.
  - intros ->. reflexivity.
Qed.

(** All the records of one call of [parse_pdf_for_outages] carry the URL of
    the PDF as [sourceUrl] and one and the same [createdAt], which is an
    ISO 8601 time stamp in UTC (twenty characters, ending in Z): the clock
    reading at entry, without its microseconds.  The records of
    [parse_with_regex] carry such a stamp too. *)
Theorem records_share_source_and_timestamp :
  forall (sha1_hexdigest : str -> str) (env : option str) (now : datetime)
         (text pdf_url html : str),
    Forall (fun r => sourceUrl r = pdf_url
                     /\ createdAt r = now_iso_of now
                     /\ is_utc_stamp (createdAt r) = true)
      (parse_pdf_for_outages sha1_hexdigest now text pdf_url)
    /\ Forall (fun r => createdAt r = now_iso_of now
                        /\ is_utc_stamp (createdAt r) = true)
         (parse_with_regex sha1_hexdigest env now html).
Proof.
  intros sha env now text pdf_url html.
  pose proof (now_iso_is_utc_stamp now) as U. split.
  - unfold parse_pdf_for_outages, scan_with_fallback.
    pose proof (structured_scan_forall sha (now_iso_of now) pdf_url
                  (fun r => sourceUrl r = pdf_url
                            /\ createdAt r = now_iso_of now
                            /\ is_utc_stamp (createdAt r) = true)
                  (fun st => conj eq_refl (conj eq_refl U))
                  (normalized_lines text)) as H.
    destruct (structured_scan _ _ _ _) as [|r rs]; [|exact H].
    destruct (normalized_lines text); [constructor|].
    constructor; [|constructor]. simpl. auto.
  - unfold parse_with_regex. apply Forall_forall. intros r Hr.
    apply in_map_iff in Hr. destruct Hr as (m & <- & _). simpl. auto.
Qed.

(** [parse_pdf_for_outages] returns at most one record more than the text
    has lines with a region marker: records are closed at region lines and
    at the end only. *)
Theorem records_bounded_by_region_lines :
  forall (sha1_hexdigest : str -> str) (now : datetime) (text pdf_url : str),
    List.length (parse_pdf_for_outages sha1_hexdigest now text pdf_url)
    <= S (region_lines (normalized_lines text)).
Proof.
  intros sha now text pdf_url.
  unfold parse_pdf_for_outages, scan_with_fallback.
  pose proof (structured_scan_length sha (now_iso_of now) pdf_url
                (normalized_lines text)) as H.
  destruct (structured_scan _ _ _ _) as [|r rs]; [|exact H].
  destruct (normalized_lines text); simpl; lia.
Qed.

End RecordFacts.

(* ------------------------------------------------------------------ *)
(** ** More on [merge_and_sort] *)

Module MergeMoreFacts.
Import Fetcher MergeFacts ParserFacts.

Local Open Scope nat_scope.

Section Dict.
Variable V : Type.
Implicit Types (d : dict V) (k : str) (v : V).

Lemma dict_set_fresh d k v :
  ~ In k (map fst d) -> dict_set k v d = d ++ [(k, v)].
Proof.
  induction d as [|[k' v'] d IH]; simpl; intros H; [reflexivity|].
  destruct (str_eqb k k') eqn:E.
  - apply str_eqb_eq in E. subst k'. exfalso. apply H. left. reflexivity.
  - f_equal. apply IH. intros X. apply H. right. exact X.
Qed.

Lemma dict_set_present_keys d k v :
  In k (map fst d) -> map fst (dict_set k v d) = map fst d.
Proof.
  induction d as [|[k' v'] d IH]; simpl; intros H; [contradiction|].
  destruct (str_eqb k k') eqn:E; simpl.
  - apply str_eqb_eq in E. subst k'. reflexivity.
  - f_equal. apply IH. destruct H as [H | H]; [|exact H].
    subst k'. rewrite str_eqb_refl in E. discriminate.
Qed.

Lemma dict_set_length d k v :
  List.length (dict_set k v d) <= S (List.length d).
Proof.
  induction d as [|[k' v'] d IH]; simpl; [lia|].
  destruct (str_eqb k k'); simpl; lia.
Qed.

End Dict.

Lemma uniq_from_seen (xs : list str) :
  forall seen seen',
    (forall x, In x seen <-> In x seen') ->
    uniq_from seen xs = uniq_from seen' xs.
Proof.
  induction xs as [|y xs IH]; intros seen seen' H; simpl; [reflexivity|].
  assert (E : existsb (str_eqb y) seen = existsb (str_eqb y) seen').
  { destruct (existsb (str_eqb y) seen) eqn:A;
      destruct (existsb (str_eqb y) seen') eqn:B; try reflexivity.
    - apply existsb_str_eqb in A. apply H in A. apply existsb_str_eqb in A.
      congruence.
    - apply existsb_str_eqb in B. apply H in B. apply existsb_str_eqb in B.
      congruence. }
  rewrite <- E. destruct (existsb (str_eqb y) seen).
  - apply IH. exact H.
  - f_equal. apply IH. intros x. simpl. rewrite H. tauto.
Qed.

(** The keys of the dictionary after the loop: those it had, then the new
    ids in the order of their first occurrence. *)
Lemma dedup_loop_key_order (items : list OutageNotice) :
  forall d,
    map fst (dedup_loop items d)
    = map fst d ++ uniq_from (map fst d) (map id items).
Proof.
  unfold dedup_loop.
  induction items as [|x items IH]; intros d; simpl; [symmetry; apply app_nil_r|].
  rewrite IH.
  destruct (existsb (str_eqb (id x)) (map fst d)) eqn:E.
  - apply existsb_str_eqb in E.
    rewrite dict_set_present_keys by exact E. reflexivity.
  - assert (F : ~ In (id x) (map fst d)).
    { intros H. apply existsb_str_eqb in H. congruence. }
    rewrite dict_set_fresh by exact F.
    rewrite map_app, <- app_assoc. simpl. do 2 f_equal.
    apply uniq_from_seen. intros y. rewrite in_app_iff. simpl. tauto.
Qed.

Lemma dedup_loop_length (items : list OutageNotice) :
  forall d,
    List.length (dedup_loop items d) <= List.length d + List.length items.
Proof.
  unfold dedup_loop.
  induction items as [|x items IH]; intros d; simpl; [lia|].
  specialize (IH (dict_set (id x) x d)).
  pose proof (dict_set_length d (id x) x). lia.
Qed.

(** Records with distinct ids are filed one after the other. *)
Lemma dedup_loop_distinct (items : list OutageNotice) :
  forall d,
    NoDup (map id items) ->
    (forall x, In x items -> ~ In (id x) (map fst d)) ->
    dedup_loop items d = d ++ map (fun it => (id it, it)) items.
Proof.
  unfold dedup_loop.
  induction items as [|x items IH]; intros d Hnd Hd; simpl;
    [symmetry; apply app_nil_r|].
  inversion Hnd as [|? ? Hx Hnd']; subst.
  rewrite dict_set_fresh by (apply Hd; left; reflexivity).
  rewrite IH.
  - rewrite <- app_assoc. reflexivity.
  - exact Hnd'.
  - intros y Hy. rewrite map_app, in_app_iff. simpl.
    intros [H | [H | []]].
    + apply (Hd y); [right; exact Hy | exact H].
    + apply Hx. rewrite H. apply in_map. exact Hy.
Qed.

Lemma dedup_values_distinct (items : list OutageNotice) :
  NoDup (map id items) -> dict_values (dedup_by_id items) = items.
Proof.
  intros H. unfold dict_values, dedup_by_id.
  rewrite dedup_loop_distinct; [|exact H | intros x _ []].
  simpl. rewrite map_map. simpl. apply map_id.
Qed.

Section Sorted.
Variable A : Type.
Variable key : A -> str.

(** A list that is already descending is left as it is. *)
Lemma sorted_desc_of_sorted (l : list A) :
  StronglySorted (key_ge key) l -> sorted_desc key l = l.
Proof.
  unfold sorted_desc.
  induction 1 as [|x l Hl IH Hx]; simpl; [reflexivity|].
  rewrite IH.
  destruct l as [|y l]; simpl; [reflexivity|].
  inversion Hx as [|? ? Hxy _]; subst. unfold key_ge in Hxy.
  rewrite Hxy. reflexivity.
Qed.

(** So is a list whose keys are all the same. *)
Lemma sorted_desc_of_equal_keys (k : str) (l : list A) :
  Forall (fun x => key x = k) l -> sorted_desc key l = l.
Proof.
  intros H. apply sorted_desc_of_sorted.
  induction H as [|x l Hx Hl IH]; constructor; [exact IH|].
  apply Forall_forall. intros y Hy. rewrite Forall_forall in Hl.
  unfold key_ge. rewrite Hx, (Hl y Hy). apply str_leb_refl.
Qed.

End Sorted.

Lemma merge_and_sort_nodup (items : list OutageNotice) :
  NoDup (map id (merge_and_sort items)).
Proof.
  unfold merge_and_sort. eapply Permutation_NoDup.
  - apply Permutation_map. symmetry. apply sorted_desc_perm.
  - apply dedup_values_nodup.
Qed.

(** Merging what has been merged changes nothing. *)
Theorem merge_and_sort_idempotent :
  forall items : list OutageNotice,
    merge_and_sort (merge_and_sort items) = merge_and_sort items.
Proof.
  intros items.
  pose proof (merge_and_sort_nodup items) as Hn.
  assert (Hs : StronglySorted (key_ge createdAt) (merge_and_sort items))
    by apply sorted_desc_sorted.
  set (m := merge_and_sort items) in *.
  unfold merge_and_sort at 1.
  rewrite dedup_values_distinct by exact Hn.
  apply sorted_desc_of_sorted. exact Hs.
Qed.

(** [merge_and_sort] invents nothing and never returns more than it was
    given; records with distinct ids are all kept, rearranged only. *)
Theorem merge_and_sort_keeps_input_records :
  forall items : list OutageNotice,
    incl (merge_and_sort items) items
    /\ List.length (merge_and_sort items) <= List.length items
    /\ (NoDup (map id items) -> Permutation (merge_and_sort items) items).
Proof.
  intros items.
  pose proof (sorted_desc_perm createdAt (dict_values (dedup_by_id items)))
    as Hperm.
  split; [|split].
  - intros r Hr. unfold merge_and_sort in Hr.
    eapply Permutation_in in Hr; [|exact Hperm].
    apply dedup_values_in in Hr. apply last_with_id_some in Hr.
    destruct Hr as (b & a & -> & _). apply in_or_app. right. left. reflexivity.
  - unfold merge_and_sort. rewrite (Permutation_length Hperm).
    unfold dict_values, dedup_by_id. rewrite length_map.
    pose proof (dedup_loop_length items []) as H. simpl in H. exact H.
  - intros Hn. unfold merge_and_sort.
    rewrite dedup_values_distinct in * by exact Hn. exact Hperm.
Qed.

(** When all the records carry the same [createdAt], as those of one call of
    a parser do, the sort moves nothing: the result lists the ids in the
    order of their first occurrence in the input. *)
Theorem merge_and_sort_with_one_timestamp :
  forall (items : list OutageNotice) (stamp : str),
    Forall (fun r => createdAt r = stamp) items ->
    merge_and_sort items = dict_values (dedup_by_id items)
    /\ map id (merge_and_sort items) = uniq (map id items).
Proof.
  intros items stamp H.
  assert (E : merge_and_sort items = dict_values (dedup_by_id items)).
  { unfold merge_and_sort. apply sorted_desc_of_equal_keys with (k := stamp).
    apply Forall_forall. intros r Hr.
    apply dedup_values_in in Hr. apply last_with_id_some in Hr.
    destruct Hr as (b & a & -> & _).
    rewrite Forall_forall in H. apply H.
    apply in_or_app. right. left. reflexivity. }
  split; [exact E|].
  rewrite E. unfold dict_values, dedup_by_id.
  pose proof (dedup_loop_key_order items []) as K. simpl in K.
  pose proof (@dedup_loop_keys items [] (Forall_nil _)) as F.
  unfold uniq. rewrite <- K. rewrite map_map.
  apply map_ext_in. intros e He. rewrite Forall_forall in F.
  symmetry. apply F. exact He.
Qed.

(** The sample of three records at one time stamp. *)
Lemma merge_and_sort_with_one_timestamp_witness :
  merge_and_sort
    [ sample_notice "a" "first" "2025-06-12T08:30:15Z";
      sample_notice "b" "other" "2025-06-12T08:30:15Z";
      sample_notice "a" "second" "2025-06-12T08:30:15Z" ]
  = dict_values
      (dedup_by_id
         [ sample_notice "a" "first" "2025-06-12T08:30:15Z";
           sample_notice "b" "other" "2025-06-12T08:30:15Z";
           sample_notice "a" "second" "2025-06-12T08:30:15Z" ])
  /\ map id
       (merge_and_sort
          [ sample_notice "a" "first" "2025-06-12T08:30:15Z";
            sample_notice "b" "other" "2025-06-12T08:30:15Z";
            sample_notice "a" "second" "2025-06-12T08:30:15Z" ])
     = uniq
         (map id
            [ sample_notice "a" "first" "2025-06-12T08:30:15Z";
              sample_notice "b" "other" "2025-06-12T08:30:15Z";
              sample_notice "a" "second" "2025-06-12T08:30:15Z" ]).
Proof.
  apply merge_and_sort_with_one_timestamp with (stamp := cp "2025-06-12T08:30:15Z").
  repeat constructor.
Defined.

End MergeMoreFacts.

(* ------------------------------------------------------------------ *)
(** ** More on the run of the fetcher *)

Module RunFacts.
Import Fetcher OrchestratorFacts RecordFacts.

Local Open Scope nat_scope.
Local Arguments firstn : simpl never.

(** *** Traces only grow *)

Section Grows.
Variable E : Type.

Lemma grows_ret (A : Type) (a : A) : grows (@ret E A a).
Proof. intros s. exists []. simpl. symmetry. apply app_nil_r. Qed.

Lemma grows_raise (A : Type) (e : exn) : grows (@raise E A e).
Proof. intros s. exists []. simpl. symmetry. apply app_nil_r. Qed.

Lemma grows_emit (e : E) : grows (emit e).
Proof. intros s. exists [e]. reflexivity. Qed.

Lemma grows_call (A : Type) (o : outcome A) : grows (@call E A o).
Proof. destruct o; [apply grows_ret | apply grows_raise]. Qed.

Lemma grows_read_clock (utcnow : nat -> datetime) : grows (@read_clock E utcnow).
Proof. intros s. exists []. simpl. symmetry. apply app_nil_r. Qed.

Lemma grows_bind (A B : Type) (m : M E A) (k : A -> M E B) :
  grows m -> (forall a, grows (k a)) -> grows (bind m k).
Proof.
  intros Hm Hk s. unfold bind.
  destruct (Hm s) as [evs1 H1].
  destruct (m s) as [[a|e] s1]; simpl in H1.
  - destruct (Hk a s1) as [evs2 H2].
    exists (evs1 ++ evs2). rewrite H2, H1. symmetry. apply app_assoc.
  - exists evs1. exact H1.
Qed.

Lemma grows_try_except (A : Type) (m : M E A) (h : str -> M E A) :
  grows m -> (forall msg, grows (h msg)) -> grows (try_except m h).
Proof.
  intros Hm Hh s. unfold try_except.
  destruct (Hm s) as [evs1 H1].
  destruct (m s) as [[a|[msg|code]] s1]; simpl in H1.
  - exists evs1. exact H1.
  - destruct (Hh msg s1) as [evs2 H2].
    exists (evs1 ++ evs2). rewrite H2, H1. symmetry. apply app_assoc.
  - exists evs1. exact H1.
Qed.

End Grows.

Create HintDb grows.
#[local] Hint Resolve grows_ret grows_raise grows_emit grows_call
  grows_read_clock : grows.

(** Splits a goal [grows m] along the structure of [m]. *)
Ltac grows :=
  repeat first
    [ apply grows_bind; [|intros ?]
    | apply grows_try_except; [|intros ?]
    | solve [auto with grows]
    | match goal with
      | |- grows (if ?b then _ else _) => destruct b
      | |- grows (match ?x with _ => _ end) => destruct x
      end ].

Lemma grows_pdf_loop (w : world) (pdfs : list str) :
  forall items, grows (pdf_loop w items pdfs).
Proof.
  induction pdfs as [|pdf pdfs IH]; intros items; simpl.
  - apply grows_ret.
  - apply grows_bind; [|intros ?; apply IH].
    unfold pdf_step, fetch_pdf_text, run_parse_pdf_for_outages. grows.
Qed.

Lemma grows_collect_items (w : world) (html source : str) :
  grows (collect_items w html source).
Proof.
  unfold collect_items, extract_pdf_links_bs4.
  apply grows_bind; [grows|]. intros links.
  destruct links; [|apply grows_pdf_loop].
  unfold page_fallback, parse_list_section_bs4, run_parse_with_regex. grows.
Qed.

(** Whatever becomes of a run whose command line is accepted, its first
    event is the request for the source URL of the command line. *)
Lemma main_first_event (w : world) (argv : list token) (args : namespace) :
  parse_args (arguments w) argv = Ok args ->
  exists rest, snd (run w argv) = HttpGet (attr_str args "source") :: rest.
Proof.
  intros Hp. unfold run, main. rewrite Hp.
  set (source := attr_str args "source").
  match goal with
  | |- context [bind (fetch_html w source) ?k] => set (rest_of_main := k)
  end.
  assert (G : forall html, grows (rest_of_main html)).
  { intros html. unfold rest_of_main, write_output, write_mirror.
    apply grows_bind; [apply grows_collect_items|]. intros items. grows. }
  unfold bind, fetch_html, try_except, emit, call, ret, raise. simpl.
  destruct (w_http_get w source) as [html|msg]; simpl.
  - destruct (G html (mk_state 0 [HttpGet source])) as [evs H].
    destruct (rest_of_main html _) as [r s']. simpl in *.
    rewrite H. eauto.
  - destruct (G [] (mk_state 0 [HttpGet source;
                 Stderr (cp "WARN: failed to fetch source: " ++ msg)]))
      as [evs H].
    destruct (rest_of_main [] _) as [r s']. simpl in *.
    rewrite H. eauto.
Qed.

(** The page requested is the one of [--source] when the option is given,
    and otherwise the default: the value of KPLC_SOURCE_URL in the
    environment, or the built-in address when the variable is not set.  It
    is the first thing a run does, whatever happens afterwards. *)
Theorem main_requests_source_or_default :
  forall (w : world) (output url : str),
    (exists rest,
        snd (run w [Positional output; Named (cp "--source") url])
        = HttpGet url :: rest)
    /\ (exists rest,
           snd (run w [Positional output])
           = HttpGet (DEFAULT_SOURCE_URL (w_environ_source w)) :: rest)
    /\ DEFAULT_SOURCE_URL (w_environ_source w)
       = match w_environ_source w with
         | Some u => u
         | None => cp "https://www.kplc.co.ke/customer-support#powerschedule"
         end.
Proof.
  intros w output url. split; [|split; [|reflexivity]].
  - apply (@main_first_event w _
             [(cp "output", VStr output); (cp "mirror", VNone);
              (cp "source", VStr url)]).
    reflexivity.
  - apply (@main_first_event w _
             [(cp "output", VStr output); (cp "mirror", VNone);
              (cp "source", VStr (DEFAULT_SOURCE_URL (w_environ_source w)))]).
    reflexivity.
Qed.


(** *** What the loop over the PDFs collects *)

Lemma pdf_step_collects (w : world) (items : list OutageNotice) (pdf : str)
    (s : state event) :
  exists more,
    fst (pdf_step w items pdf s) = Ok (items ++ more)
    /\ Forall (fun r => sourceUrl r = pdf) more.
Proof.
  unfold pdf_step, fetch_pdf_text, run_parse_pdf_for_outages. run_monad.
  destruct (w_urlopen_read w pdf) as [data|msg]; simpl.
  2:{ exists []. rewrite app_nil_r. repeat split; constructor. }
  destruct (w_pdfminer_text w data) as [text|msg]; simpl.
  - destruct (truthy (strip text)); simpl.
    + destruct (truthy text); simpl.
      * eexists. split; [reflexivity | apply parse_pdf_source].
      * exists []. rewrite app_nil_r. repeat split; constructor.
    + destruct (truthy (pypdf2_text w data text)); simpl.
      * eexists. split; [reflexivity | apply parse_pdf_source].
      * exists []. rewrite app_nil_r. repeat split; constructor.
  - destruct (truthy (pypdf2_text w data [])); simpl.
    + eexists. split; [reflexivity | apply parse_pdf_source].
    + exists []. rewrite app_nil_r. repeat split; constructor.
Qed.

Lemma pdf_loop_collects (w : world) (pdfs : list str) :
  forall (items : list OutageNotice) (s : state event),
  exists more,
    fst (pdf_loop w items pdfs s) = Ok (items ++ more)
    /\ Forall (fun r => In (sourceUrl r) pdfs) more.
Proof.
  induction pdfs as [|pdf pdfs IH]; intros items s; simpl.
  - exists []. rewrite app_nil_r. repeat split. constructor.
  - unfold bind.
    destruct (pdf_step_collects w items pdf s) as (m1 & R1 & F1).
    destruct (pdf_step w items pdf s) as [r1 s1]. simpl in R1. subst r1.
    destruct (IH (items ++ m1) s1) as (m2 & R2 & F2).
    exists (m1 ++ m2).
    destruct (pdf_loop w (items ++ m1) pdfs s1) as [r2 s2]. simpl in *.
    rewrite R2, app_assoc. split; [reflexivity|].
    apply Forall_app. split.
    + eapply Forall_impl; [|exact F1]. intros r Hr. left. symmetry. exact Hr.
    + eapply Forall_impl; [|exact F2]. intros r Hr. right. exact Hr.
Qed.

(** When no download succeeds the loop leaves the items as they are, and
    hands nothing to the record extractor. *)
Lemma pdf_loop_all_fail (w : world) (pdfs : list str) :
  (forall url, exists msg, w_urlopen_read w url = Fails msg) ->
  forall (items : list OutageNotice) (s : state event),
  exists s' evs,
    pdf_loop w items pdfs s = (Ok items, s')
    /\ trace s' = trace s ++ evs
    /\ Forall (fun e => is_pdf_event e = true) evs
    /\ extracted evs = [].
Proof.
  intros Hf.
  induction pdfs as [|pdf pdfs IH]; intros items s; simpl.
  - exists s, []. rewrite app_nil_r. repeat split. constructor.
  - assert (S1 : exists s1 evs1,
               pdf_step w items pdf s = (Ok items, s1)
               /\ trace s1 = trace s ++ evs1
               /\ Forall (fun e => is_pdf_event e = true) evs1
               /\ extracted evs1 = []).
    { destruct (Hf pdf) as [msg Hm].
      unfold pdf_step, fetch_pdf_text. run_monad. rewrite Hm. simpl.
      do 2 eexists. split; [reflexivity|]. split.
      - simpl. rewrite <- app_assoc. simpl. reflexivity.
      - split; [repeat constructor | reflexivity]. }
    destruct S1 as (s1 & evs1 & R1 & T1 & F1 & X1).
    destruct (IH items s1) as (s2 & evs2 & R2 & T2 & F2 & X2).
    exists s2, (evs1 ++ evs2). unfold bind. rewrite R1, R2.
    split; [reflexivity|]. split; [rewrite T2, T1; symmetry; apply app_assoc|].
    split; [apply Forall_app; split; assumption|].
    rewrite extracted_app, X1, X2. reflexivity.
Qed.

(** The loop over the PDFs only adds to the items: a PDF that cannot be
    fetched or read removes nothing of what the PDFs before it gave, and
    every record added names one of the PDFs of the loop as its source. *)
Theorem pdf_loop_only_adds_records :
  forall (w : world) (items : list OutageNotice) (pdfs : list str)
         (s : state event),
  exists more,
    fst (pdf_loop w items pdfs s) = Ok (items ++ more)
    /\ Forall (fun r => In (sourceUrl r) pdfs) more.
Proof.
  intros w items pdfs s.
  apply pdf_loop_collects.
Qed.

(** Once the page has a PDF link the two scans of the page are out of the
    run for good: when no PDF can be downloaded the result is the empty
    list, and the events are those of the PDF strategy alone. *)
Theorem no_page_scan_after_failed_pdfs :
  forall (w : world) (html source link : str) (more : list str)
         (s s1 : state event),
    extract_pdf_links_bs4 w html source s = (Ok (link :: more), s1) ->
    (forall url, exists msg, w_urlopen_read w url = Fails msg) ->
    exists s2 evs,
      collect_items w html source s = (Ok [], s2)
      /\ trace s2 = trace s1 ++ evs
      /\ Forall (fun e => is_pdf_event e = true) evs
      /\ extracted evs = [].
Proof.
  intros w html source link more s s1 Hl Hf.
  unfold collect_items, bind. rewrite Hl.
  apply pdf_loop_all_fail. exact Hf.
Qed.

(** At the page with twenty links of which none can be downloaded. *)
Lemma no_page_scan_after_failed_pdfs_witness :
  exists s2 evs,
    collect_items twenty_links_world (cp "<html>...</html>") [] start
    = (Ok [], s2)
    /\ trace s2 = [LinkExtraction] ++ evs
    /\ Forall (fun e => is_pdf_event e = true) evs
    /\ extracted evs = [].
Proof.
  apply (@no_page_scan_after_failed_pdfs twenty_links_world
           (cp "<html>...</html>") []
           (cp "https://www.kplc.co.ke/files/1.pdf") (tl twenty_links)
           start (mk_state 0 [LinkExtraction])).
  - vm_compute. reflexivity.
  - intros url. eexists. reflexivity.
Defined.

(** *** The files of a run *)

Lemma write_output_written (w : world) (items : list OutageNotice)
    (payload path : str) (s : state event) :
  exists s' evs,
    write_output w items payload path s = (Ok tt, s')
    /\ trace s' = trace s ++ evs
    /\ written evs = file_written w path payload.
Proof.
  unfold write_output, file_written. run_monad.
  destruct (w_write_file w path payload) as [[]|msg]; simpl.
  - do 2 eexists. split; [reflexivity|]. split.
    + simpl. rewrite <- app_assoc. simpl. reflexivity.
    + reflexivity.
  - do 2 eexists. split; [reflexivity|]. split; reflexivity.
Qed.

Lemma write_mirror_written (w : world) (payload path : str) (s : state event) :
  exists s' evs,
    write_mirror w payload path s = (Ok tt, s')
    /\ trace s' = trace s ++ evs
    /\ written evs = file_written w path payload.
Proof.
  unfold write_mirror, file_written. run_monad.
  destruct (w_write_file w path payload) as [[]|msg]; simpl.
  - do 2 eexists. split; [reflexivity|]. split.
    + simpl. rewrite <- app_assoc. simpl. reflexivity.
    + reflexivity.
  - do 2 eexists. split; [reflexivity|]. split; reflexivity.
Qed.

(** A run whose command line is accepted, and in which the HTML parser does
    not raise while the links of the page of the run are read (on pages that
    the run does not read it may), writes at most two files: the output
    path first, then the mirror path if [--mirror] names one, both with the
    JSON of the merged items.  Each write stands alone: the mirror is tried
    also when the output could not be written. *)
Theorem main_writes_output_then_mirror :
  forall (w : world) (argv : list token) (args : namespace),
    parse_args (arguments w) argv = Ok args ->
    (forall html s0,
        fetch_html w (attr_str args "source") start = (Ok html, s0) ->
        links_readable w html) ->
    exists html s0 items s1 s',
      fetch_html w (attr_str args "source") start = (Ok html, s0)
      /\ collect_items w html (attr_str args "source") s0 = (Ok items, s1)
      /\ main w argv start = (Ok 0%Z, s')
      /\ written (trace s')
         = file_written w (attr_str args "output")
             (json_dumps (merge_and_sort items))
           ++ (if truthy (attr_str args "mirror")
               then file_written w (attr_str args "mirror")
                      (json_dumps (merge_and_sort items))
               else []).
Proof.
  intros w argv args Hp Hsoup.
  set (source := attr_str args "source").
  destruct (fetch_html_run w source start)
    as (html & s0 & evs0 & R0 & T0 & W0 & _).
  destruct (@collect_items_run w html source s0 (Hsoup html s0 R0))
    as (items & s1 & evs1 & R1 & T1 & W1).
  set (payload := json_dumps (merge_and_sort items)).
  destruct (write_output_written w (merge_and_sort items) payload
              (attr_str args "output") s1) as (s2 & evs2 & R2 & T2 & W2).
  assert (M : exists s3 evs3,
             (if truthy (attr_str args "mirror")
              then write_mirror w payload (attr_str args "mirror")
              else ret tt) s2 = (Ok tt, s3)
             /\ trace s3 = trace s2 ++ evs3
             /\ written evs3
                = (if truthy (attr_str args "mirror")
                   then file_written w (attr_str args "mirror") payload
                   else [])).
  { destruct (truthy (attr_str args "mirror")).
    - apply write_mirror_written.
    - exists s2, []. rewrite app_nil_r. repeat split. }
  destruct M as (s3 & evs3 & R3 & T3 & W3).
  exists html, s0, items, s1, s3.
  split; [exact R0|]. split; [exact R1|]. split.
  - unfold main. rewrite Hp. fold source. unfold bind.
    rewrite R0, R1. fold payload. rewrite R2, R3. reflexivity.
  - rewrite T3, T2, T1, T0. simpl.
    rewrite !written_app, W0, W1, W2, W3. reflexivity.
Qed.

(** With a mirror path, in a world whose parser rejects a page that the run
    does not read. *)
Lemma main_writes_output_then_mirror_witness :
  exists html s0 items s1 s',
    fetch_html picky_parser_world
      (cp "https://www.kplc.co.ke/customer-support#powerschedule") start
    = (Ok html, s0)
    /\ collect_items picky_parser_world html
         (cp "https://www.kplc.co.ke/customer-support#powerschedule") s0
       = (Ok items, s1)
    /\ main picky_parser_world
         [Positional sample_output; Named (cp "--mirror") (cp "src/models/p.json")]
         start = (Ok 0%Z, s')
    /\ written (trace s')
       = file_written picky_parser_world sample_output
           (json_dumps (merge_and_sort items))
         ++ file_written picky_parser_world (cp "src/models/p.json")
              (json_dumps (merge_and_sort items)).
Proof.
  apply (@main_writes_output_then_mirror picky_parser_world
           [Positional sample_output; Named (cp "--mirror") (cp "src/models/p.json")]
           [(cp "output", VStr sample_output);
            (cp "mirror", VStr (cp "src/models/p.json"));
            (cp "source",
             VStr (cp "https://www.kplc.co.ke/customer-support#powerschedule"))]).
  - vm_compute. reflexivity.
  - intros html s0 H. right. vm_compute in H.
    injection H as <- _. exists []. vm_compute. reflexivity.
Defined.

(** The two files of that run. *)
Example mirrored_run_files :
  written (snd (run unreachable_world
                  [Positional sample_output;
                   Named (cp "--mirror") (cp "src/models/p.json")]))
  = [(sample_output, cp "[]"); (cp "src/models/p.json", cp "[]")].
Proof. vm_compute. reflexivity. Qed.
End RunFacts.

(* ------------------------------------------------------------------ *)
(** ** The JSON of the payload *)

Module JsonFacts.
Import Fetcher.

Lemma below_32_cases (c : N) :
  c < 32 -> In c (map N.of_nat (seq 0 32)).
Proof.
  intros H. apply in_map_iff. exists (N.to_nat c). split.
  - apply N2Nat.id.
  - apply in_seq. lia.
Qed.

(** Reading the escape of a character gives the character back. *)
Lemma read_escape_char (c : N) (tail : str) :
  read_chars (escape_char c ++ tail) = push c (read_chars tail).
Proof.
  destruct (c <? 32) eqn:L.
  - apply N.ltb_lt in L. apply below_32_cases in L. simpl in L.
    repeat (destruct L as [<- | L]; [reflexivity|]). contradiction.
  - apply N.ltb_ge in L.
    destruct (c =? 34) eqn:Q; [apply N.eqb_eq in Q; subst c; reflexivity|].
    destruct (c =? 92) eqn:B; [apply N.eqb_eq in B; subst c; reflexivity|].
    unfold escape_char. rewrite Q, B.
    assert (X : forall k, k < 32 -> (c =? k) = false)
      by (intros k Hk; apply N.eqb_neq; lia).
    rewrite !X by lia.
    assert (Y : (c <? 32) = false) by (apply N.ltb_ge; lia).
    rewrite Y. simpl. rewrite Q, B, Y. reflexivity.
Qed.

Lemma read_escaped (s tail : str) :
  read_chars (flat_map escape_char s ++ [34] ++ tail) = Some (s, tail).
Proof.
  induction s as [|c s IH]; simpl; [reflexivity|].
  rewrite <- app_assoc, read_escape_char.
  simpl in IH. rewrite IH. reflexivity.
Qed.

(** Proves [Forall (fun x => 32 <= x) l] for an explicit list [l]. *)
Ltac all_printable :=
  repeat first [apply Forall_nil | apply Forall_cons; [lia|]].

Lemma escape_char_printable (c : N) : Forall (fun x => 32 <= x) (escape_char c).
Proof.
  destruct (c <? 32) eqn:L.
  - apply N.ltb_lt in L. apply below_32_cases in L. simpl in L.
    repeat (destruct L as [<- | L];
            [match goal with
             | |- Forall _ ?e =>
                 let l := eval vm_compute in e in change e with l
             end; all_printable|]).
    contradiction.
  - apply N.ltb_ge in L. unfold escape_char.
    change (cp "\" ++ [34]) with [92; 34].
    change (cp "\\") with [92; 92]. change (cp "\n") with [92; 110].
    change (cp "\r") with [92; 114]. change (cp "\t") with [92; 116].
    change (cp "\b") with [92; 98]. change (cp "\f") with [92; 102].
    change (cp "\u00") with [92; 117; 48; 48].
    repeat match goal with
           | |- context [if ?b then _ else _] => destruct b eqn:?
           end; try all_printable.
    apply N.ltb_lt in Heqb6. lia.
Qed.

Lemma quoted_printable (s : str) : Forall (fun x => 32 <= x) (quoted s).
Proof.
  unfold quoted. apply Forall_app. split; [all_printable|].
  apply Forall_app. split; [|all_printable].
  induction s as [|c s IH]; simpl; [constructor|].
  apply Forall_app. split; [apply escape_char_printable | exact IH].
Qed.

Lemma join_forall (P : N -> Prop) (sep : str) (xs : list str) :
  Forall P sep -> Forall (Forall P) xs -> Forall P (join sep xs).
Proof.
  intros Hs H. induction H as [|x xs Hx Hxs IH]; simpl; [constructor|].
  destruct xs as [|y xs]; [exact Hx|].
  apply Forall_app. split; [exact Hx|].
  apply Forall_app. split; [exact Hs | exact IH].
Qed.

(** Proves [Forall (fun c => c = 10 \/ 32 <= c) l] for an explicit [l]. *)
Ltac all_layout :=
  repeat first
    [ apply Forall_nil
    | apply Forall_cons; [first [left; reflexivity | right; lia]|] ].

Lemma quoted_layout (s : str) : Forall (fun c => c = 10 \/ 32 <= c) (quoted s).
Proof.
  eapply Forall_impl; [|apply quoted_printable]. intros c H. right. exact H.
Qed.

Lemma dump_object_layout (entries : list (string * str)) :
  Forall (fun c => c = 10 \/ 32 <= c) (dump_object entries).
Proof.
  unfold dump_object.
  change (cp "{") with [123]. change (cp ",") with [44].
  change (cp "  }") with [32; 32; 125].
  change (cp "    ") with [32; 32; 32; 32]. change (cp ": ") with [58; 32].
  apply Forall_app; split; [all_layout|].
  apply Forall_app; split; [all_layout|].
  apply Forall_app; split; [|all_layout].
  apply join_forall; [all_layout|].
  apply Forall_forall. intros x Hx.
  apply in_map_iff in Hx. destruct Hx as (e & <- & _).
  apply Forall_app; split; [all_layout|].
  apply Forall_app; split; [apply quoted_layout|].
  apply Forall_app; split; [all_layout | apply quoted_layout].
Qed.

(** The JSON string that [json.dumps] writes for a text reads back as that
    text, whatever follows it, and holds no control character; in the whole
    payload the only control character is the line feed of the layout. *)
Theorem json_strings_read_back :
  forall (s tail : str) (items : list OutageNotice),
    read_string (quoted s ++ tail) = Some (s, tail)
    /\ Forall (fun c => 32 <= c) (quoted s)
    /\ Forall (fun c => c = 10 \/ 32 <= c) (json_dumps items).
Proof.
  intros s tail items. split; [|split].
  - unfold quoted, read_string. simpl. rewrite <- app_assoc.
    apply read_escaped.
  - apply quoted_printable.
  - unfold json_dumps, dump_list.
    destruct (map dump_notice items) as [|o os] eqn:E.
    + change (cp "[]") with [91; 93]. all_layout.
    + rewrite <- E. change (cp "[") with [91]. change (cp "]") with [93].
      change (cp ",") with [44]. change (cp "  ") with [32; 32].
      apply Forall_app; split; [all_layout|].
      apply Forall_app; split; [all_layout|].
      apply Forall_app; split; [|all_layout].
      apply join_forall; [all_layout|].
      apply Forall_forall. intros x Hx.
      apply in_map_iff in Hx. destruct Hx as (o' & <- & Ho').
      apply in_map_iff in Ho'. destruct Ho' as (r & <- & _).
      apply Forall_app. split; [all_layout|].
      apply dump_object_layout.
Qed.

End JsonFacts.

(* ------------------------------------------------------------------ *)
(** ** The earlier fetcher *)

Module LegacyFacts.
Import Fetcher LegacyFetcher TimeFacts NormalizeFacts.

(** *** Texts of the records *)

Lemma normal_single_spaced (s : str) :
  forall b, is_normal_from b s = true -> single_spaced b s = true.
Proof.
  induction s as [|c s IH]; intros b H; simpl in *; [reflexivity|].
  destruct (is_space c); [|apply IH; exact H].
  rewrite !andb_true_iff in *. destruct H as [[H1 H2] H3].
  repeat split; auto.
Qed.

Lemma normalized_single_spaced (s : str) :
  is_normalized s = true -> single_spaced true s = true.
Proof.
  destruct s as [|c s]; [reflexivity|].
  unfold is_normalized. apply normal_single_spaced.
Qed.

Lemma normalize_normal (s : str) : is_normalized (normalize s) = true.
Proof.
  unfold normalize, normalize_space, strip, lstrip. apply rstrip_normal.
  eapply drop_spaces_single_spaced. apply sub_spaces_single_spaced.
Qed.

Lemma strip_normal (p : str) (b : bool) :
  single_spaced b p = true -> is_normalized (strip p) = true.
Proof.
  intros H. unfold strip, lstrip. apply rstrip_normal.
  eapply drop_spaces_single_spaced. exact H.
Qed.

(** The pieces between hyphens of a text without runs of white space have
    none either. *)
Lemma split_on_single_spaced (s : str) :
  forall b, single_spaced b s = true ->
            match split_on 45 s with
            | [] => True
            | p :: ps => single_spaced b p = true
                         /\ Forall (fun q => single_spaced false q = true) ps
            end.
Proof.
  induction s as [|c s IH]; intros b H.
  - simpl. split; [reflexivity | constructor].
  - cbn [split_on]. destruct (c =? 45) eqn:E.
    + apply N.eqb_eq in E. subst c. simpl in H.
      specialize (IH false H). split; [reflexivity|].
      destruct (split_on 45 s) as [|p ps]; [constructor|].
      destruct IH as [Hp Hps]. constructor; assumption.
    + simpl in H. destruct (is_space c) eqn:Sp.
      * rewrite !andb_true_iff in H. destruct H as [[H1 H2] H3].
        specialize (IH true H3).
        destruct (split_on 45 s) as [|p ps].
        { split; [|constructor]. simpl. rewrite Sp, H1, H2. reflexivity. }
        destruct IH as [Hp Hps]. split; [|exact Hps].
        simpl. rewrite Sp, H1, H2, Hp. reflexivity.
      * specialize (IH false H).
        destruct (split_on 45 s) as [|p ps].
        { split; [|constructor]. simpl. rewrite Sp. reflexivity. }
        destruct IH as [Hp Hps]. split; [|exact Hps].
        simpl. rewrite Sp. exact Hp.
Qed.

Lemma hyphen_parts_normal (title : str) :
  is_normalized title = true ->
  Forall (fun p => is_normalized p = true) (hyphen_parts title).
Proof.
  intros H. apply normalized_single_spaced in H.
  pose proof (split_on_single_spaced title true H) as S.
  unfold hyphen_parts. apply Forall_forall. intros p Hp.
  apply filter_In in Hp. destruct Hp as [Hp _].
  apply in_map_iff in Hp. destruct Hp as (q & <- & Hq).
  destruct (split_on 45 title) as [|q0 qs]; [destruct Hq|].
  destruct S as [S0 S]. destruct Hq as [<- | Hq].
  - eapply strip_normal. exact S0.
  - eapply strip_normal. rewrite Forall_forall in S. apply S. exact Hq.
Qed.

Lemma region_of_normal (title : str) :
  is_normalized title = true -> is_normalized (region_of title) = true.
Proof.
  intros H. unfold region_of.
  destruct (truthy _) eqn:E.
  - destruct (search region_re title); [apply normalize_normal | reflexivity].
  - pose proof (hyphen_parts_normal title H) as P.
    destruct (hyphen_parts title) as [|a [|b l]]; try reflexivity.
    inversion P as [|? ? _ P']. inversion P'. assumption.
Qed.

Lemma area_of_filled (title : str) :
  truthy (area_of title) = true /\ is_normalized (area_of title) = true.
Proof.
  unfold area_of.
  assert (N : is_normalized
                match search area_re title with
                | Some m => normalize (group_text 1 m)
                | None => []
                end = true)
    by (destruct (search area_re title); [apply normalize_normal | reflexivity]).
  revert N.
  generalize (match search area_re title with
              | Some m => normalize (group_text 1 m)
              | None => []
              end).
  intros area N. cbv zeta. destruct (truthy area) eqn:E.
  - split; assumption.
  - split; vm_compute; reflexivity.
Qed.

(** *** Times of the records *)

Lemma iso_or_empty_isoformat (x : option datetime) :
  iso_or_empty (or_empty (option_map isoformat x)) = true.
Proof.
  destruct x as [d|]; [|reflexivity]. cbn [option_map or_empty].
  pose proof (isoformat_is_iso8601 d) as H. unfold iso_or_empty.
  destruct (isoformat d); [reflexivity | exact H].
Qed.

Lemma times_iso_or_empty (strptime : str -> str -> option datetime) (title : str) :
  iso_or_empty (or_empty (fst (parse_datetime_range strptime title))) = true
  /\ iso_or_empty (or_empty (snd (parse_datetime_range strptime title))) = true.
Proof.
  unfold parse_datetime_range.
  destruct (search date_match_re title); [|split; reflexivity].
  destruct (search time_range_re title); [|split; reflexivity].
  split; apply iso_or_empty_isoformat.
Qed.

(** [isoformat()] followed by Z is an ISO 8601 instant, with or without
    microseconds. *)
Lemma created_at_is_iso8601 (d : datetime) :
  is_iso8601 (isoformat d ++ cp "Z") = true.
Proof.
  destruct d as [y mo dd h mi s us ok1 ok2].
  unfold isoformat. simpl year; simpl month; simpl day; simpl hour;
    simpl minute; simpl second; simpl microsecond.
  change (cp "-") with [45]. change (cp "T") with [84].
  change (cp ":") with [58]. change (cp ".") with [46].
  change (cp "Z") with [90].
  cbn [fixed_width app].
  destruct (us =? 0); cbn [app]; name_digits;
    cbn [is_iso8601 is_time_then_offset is_fraction_then_offset is_offset
         all_digits forallb drop_while andb];
    use_digits;
    cbn [is_iso8601 is_time_then_offset is_fraction_then_offset is_offset
         all_digits forallb drop_while andb];
    reflexivity.
Qed.

(** *** The records of the loop *)

Lemma item_of_shape (w : world) (n : nat) (title : str) :
  is_normalized title = true -> truthy title = true ->
  is_scraped_record w (item_of w (w_utcnow w n) title).
Proof.
  intros Hn Ht. unfold is_scraped_record, item_of.
  cbn [id region area startTime endTime sourceUrl createdAt].
  assert (E : normalize title = title)
    by (apply normalize_space_fixes_normalized; exact Hn).
  rewrite E.
  destruct (area_of_filled title) as [A1 A2].
  destruct (times_iso_or_empty (w_strptime w) title) as [T1 T2].
  repeat split; auto.
  - destruct title; [discriminate | reflexivity].
  - unfold take. apply firstn_le_length.
  - apply normalized_single_spaced in Hn. unfold take.
    apply single_spaced_prefix with (u := skipn 120 title).
    rewrite firstn_skipn. exact Hn.
  - apply region_of_normal. exact Hn.
  - apply created_at_is_iso8601.
  - exists n. reflexivity.
Qed.

(** The loop never raises and prints nothing; it reads the clock once for
    each record, and makes at most one record for each block. *)
Lemma collect_spec (w : world) (blocks : list str) :
  forall s,
    exists items,
      collect w blocks s
      = (Ok items, mk_state (clock_reads s + List.length items)%nat (trace s))
      /\ Forall (is_scraped_record w) items
      /\ (List.length items <= List.length blocks)%nat.
Proof.
  induction blocks as [|block blocks IH]; intros s.
  - exists []. simpl. destruct s as [n t]. simpl. rewrite Nat.add_0_r.
    repeat split; auto.
  - cbn [collect].
    destruct (truthy (normalize block) && is_notice_title (normalize block))
      eqn:E.
    + apply andb_true_iff in E. destruct E as [Et _].
      unfold bind, read_clock.
      destruct (IH (mk_state (S (clock_reads s)) (trace s)))
        as (items & Hc & Hf & Hl).
      rewrite Hc. cbn [clock_reads trace ret].
      exists (item_of w (w_utcnow w (clock_reads s)) (normalize block) :: items).
      repeat split.
      * cbn [List.length]. rewrite Nat.add_succ_r. reflexivity.
      * constructor; [|exact Hf].
        apply item_of_shape; [apply normalize_normal | exact Et].
      * cbn [List.length]. lia.
    + destruct (IH s) as (items & Hc & Hf & Hl).
      exists items. repeat split; auto. cbn [List.length]. lia.
Qed.

(** *** One record for each id *)

Lemma keep_first_in (items : list OutageNotice) :
  forall seen r,
    In r (keep_first seen items) ->
    In r items /\ existsb (str_eqb (id r)) seen = false.
Proof.
  induction items as [|it rest IH]; intros seen r H; [destruct H|].
  cbn [keep_first] in H.
  destruct (existsb (str_eqb (id it)) seen) eqn:E.
  - destruct (IH _ _ H) as [H1 H2]. split; [right; exact H1 | exact H2].
  - destruct H as [<- | H]; [split; [left; reflexivity | exact E]|].
    destruct (IH _ _ H) as [H1 H2]. split; [right; exact H1|].
    cbn [existsb] in H2. apply orb_false_iff in H2. tauto.
Qed.

Lemma keep_first_distinct (items : list OutageNotice) :
  forall seen, NoDup (map id (keep_first seen items)).
Proof.
  induction items as [|it rest IH]; intros seen; [constructor|].
  cbn [keep_first].
  destruct (existsb (str_eqb (id it)) seen) eqn:E; [apply IH|].
  cbn [map]. constructor; [|apply IH].
  intros H. apply in_map_iff in H. destruct H as (r & Hid & Hr).
  apply keep_first_in in Hr. destruct Hr as [_ Hr].
  cbn [existsb] in Hr. rewrite Hid, str_eqb_refl in Hr. discriminate.
Qed.

Lemma keep_first_first (items : list OutageNotice) (k : str) :
  forall seen,
    first_with_id k (keep_first seen items)
    = if existsb (str_eqb k) seen then None else first_with_id k items.
Proof.
  unfold first_with_id.
  induction items as [|it rest IH]; intros seen.
  - simpl. destruct (existsb _ seen); reflexivity.
  - cbn [keep_first].
    destruct (existsb (str_eqb (id it)) seen) eqn:E.
    + rewrite IH. cbn [find].
      destruct (existsb (str_eqb k) seen) eqn:Ek; [reflexivity|].
      destruct (str_eqb (id it) k) eqn:Eq; [|reflexivity].
      apply str_eqb_eq in Eq. rewrite Eq in E. congruence.
    + cbn [find]. rewrite IH. cbn [existsb].
      destruct (str_eqb (id it) k) eqn:Eq.
      * apply str_eqb_eq in Eq. rewrite Eq in E. rewrite E. reflexivity.
      * assert (Eq' : str_eqb k (id it) = false).
        { apply str_eqb_neq. apply str_eqb_neq in Eq. congruence. }
        rewrite Eq'. reflexivity.
Qed.

Lemma keep_first_forall (P : OutageNotice -> Prop) (items : list OutageNotice) :
  forall seen, Forall P items -> Forall P (keep_first seen items).
Proof.
  intros seen H. apply Forall_forall. intros r Hr.
  apply keep_first_in in Hr. rewrite Forall_forall in H. apply H. tauto.
Qed.

Lemma fetch_spec (w : world) (s : state event) :
  fetch w s = (fst (fetch w s),
               mk_state (clock_reads (snd (fetch w s)))
                        (trace s ++ [Request SOURCE_URL]))
  /\ match fst (fetch w s) with
     | Ok data => NoDup (map id data) /\ Forall (is_scraped_record w) data
     | Raise e => exists msg, e = Exception msg
     end.
Proof.
  unfold fetch, bind, emit, call.
  destruct (w_requests_get w SOURCE_URL) as [html|msg]; cbn [ret raise];
    [|split; [reflexivity | cbn [fst]; eauto]].
  destruct (w_soup_blocks w html) as [blocks|msg]; cbn [ret raise];
    [|split; [reflexivity | cbn [fst]; eauto]].
  destruct (collect_spec w blocks
              (mk_state (clock_reads s) (trace s ++ [Request SOURCE_URL])))
    as (items & Hc & Hf & _).
  rewrite Hc. cbn [fst snd clock_reads trace]. split; [reflexivity|].
  split; [apply keep_first_distinct | apply keep_first_forall; exact Hf].
Qed.

(** Of the records that the loop of [fetch] made with one id, the first is
    the one returned: the ids of the result are distinct, its records are
    records of the loop, and looking up an id gives the first record that
    the loop made with it. *)
Theorem duplicate_ids_keep_first_record :
  forall items : list OutageNotice,
    NoDup (map id (keep_first [] items))
    /\ incl (keep_first [] items) items
    /\ forall k, first_with_id k (keep_first [] items) = first_with_id k items.
Proof.
  intros items. split; [apply keep_first_distinct|]. split.
  - intros r Hr. apply keep_first_in in Hr. tauto.
  - intros k. apply keep_first_first.
Qed.

(** When [fetch] returns, it has made one request, for the page of the
    schedule, and printed nothing; the ids of its records are distinct and
    every record has the shape [is_scraped_record]: an id of 1 to 120
    characters, an area, normalized texts, times that are empty or
    ISO 8601, the address of the page, a reading of the clock as creation
    time. *)
Theorem fetch_records_are_well_formed :
  forall (w : world) (s s' : state event) (data : list OutageNotice),
    fetch w s = (Ok data, s') ->
    trace s' = trace s ++ [Request SOURCE_URL]
    /\ NoDup (map id data)
    /\ Forall (is_scraped_record w) data.
Proof.
  intros w s s' data H.
  destruct (fetch_spec w s) as [H1 H2]. rewrite H in H1, H2.
  cbn [fst snd] in H1, H2. split; [|exact H2].
  injection H1 as ->. reflexivity.
Qed.

Lemma fetch_records_are_well_formed_witness :
  exists data s',
    fetch sample_page_world start = (Ok data, s')
    /\ List.length data = 1%nat
    /\ trace s' = [Request SOURCE_URL]
    /\ NoDup (map id data)
    /\ Forall (is_scraped_record sample_page_world) data.
Proof.
  destruct (fetch sample_page_world start) as [r s'] eqn:E.
  assert (L : match r with Ok data => List.length data = 1%nat | _ => False end).
  { replace r with (fst (fetch sample_page_world start)) by (rewrite E; reflexivity).
    vm_compute. reflexivity. }
  destruct r as [data|e]; [|destruct L].
  exists data, s'. split; [reflexivity|]. split; [exact L|].
  exact (fetch_records_are_well_formed sample_page_world start E).
Defined.

(** The script guards nothing: its status follows its three steps.  When
    the request for the page raises, or the HTML parser does, the status is
    1 and the run has made the request only: no write, no line printed.
    Otherwise [fetch] returns its records, and the status follows the
    write: when it succeeds the status is 0, the records are in the file
    named by the first argument, or planned_outages.json without one, and
    their number is printed; when it raises the status is 1, with no write
    completed and no line printed. *)
Theorem script_writes_or_fails :
  forall (w : world) (argv : list str),
    match w_requests_get w SOURCE_URL with
    | Fails _ => run w argv = (1%Z, [Request SOURCE_URL])
    | Returns html =>
        match w_soup_blocks w html with
        | Fails _ => run w argv = (1%Z, [Request SOURCE_URL])
        | Returns blocks =>
            exists data s',
              fetch w start = (Ok data, s')
              /\ run w argv
                 = match w_write_file w (out_path_of argv) (json_dumps data) with
                   | Returns _ => (0%Z, events_of_success argv data)
                   | Fails _ => (1%Z, [Request SOURCE_URL])
                   end
        end
    end.
Proof.
  intros w argv. unfold run, script. fold (out_path_of argv).
  unfold fetch, bind, call, emit, ret, raise.
  destruct (w_requests_get w SOURCE_URL) as [html|msg]; [|reflexivity].
  destruct (w_soup_blocks w html) as [blocks|msg]; [|reflexivity].
  destruct (collect_spec w blocks
              (mk_state (clock_reads (@start event))
                 (trace (@start event) ++ [Request SOURCE_URL])))
    as (items & Hc & _ & _).
  rewrite Hc. do 2 eexists. split; [reflexivity|].
  destruct (w_write_file w (out_path_of argv) (json_dumps (keep_first [] items)))
    as [[]|msg]; reflexivity.
Qed.

(** A page with one notice in two blocks gives one record, with the start
    time that [strptime] read and no end time. *)
Example page_with_one_notice :
  run sample_page_world []
  = (0%Z,
     events_of_success []
       [ mk_notice (take 120 (normalize (sample_title ++ cp " Contact us")))
           (cp "Nairobi") (cp "Karen, Langata 12")
           (cp "2025-06-12T09:00:00") []
           SOURCE_URL (cp "2025-06-12T08:30:15.250000Z") ]).
Proof. vm_compute. reflexivity. Qed.

(** A refused request ends the script with a traceback and no file. *)
Example refused_request_writes_nothing :
  run refused_page_world [cp "models/planned_outages.json"]
  = (1%Z, [Request SOURCE_URL]).
Proof. reflexivity. Qed.

End LegacyFacts.
